(** * LinkFX: curve sampler, rope simulation store and render dispatch

    A shallow embedding of [js/LinkFX.js] (the ComfyUI LinkFX extension) and
    the properties its specification states about it.

    Numbers are JavaScript Numbers, that is IEEE 754 binary64 values: they are
    modelled by Rocq's primitive [float], whose operations are the same
    correctly rounded operations.  The rope store is the [Map] [ropePhysics],
    modelled by a [gmap] from the string keys to rope states. *)

From Stdlib Require Import Floats ZArith Uint63 Ascii.
From stdpp Require Import gmap strings list fin_maps pretty.

Set Warnings "-inexact-float".

(** ** The JavaScript number runtime *)

Module JsNum.

(** An integer as a Number (exact below 2^53). *)
Definition of_Z (z : Z) : float :=
  if (z <? 0)%Z then PrimFloat.opp (of_uint63 (Uint63.of_Z (- z)))
  else of_uint63 (Uint63.of_Z z).

Definition of_nat (n : nat) : float := of_Z (Z.of_nat n).

(** [x > y] and [x < y]; both are false as soon as an operand is NaN. *)
Definition gtb (x y : float) : bool := PrimFloat.ltb y x.
Definition ltb (x y : float) : bool := PrimFloat.ltb x y.

Definition is_neg_zero (x : float) : bool :=
  match classify x with NZero => true | _ => false end.

(** [Math.min(x, y)]: NaN if an operand is NaN, and -0 is below +0. *)
Definition Math_min (x y : float) : float :=
  if is_nan x then x
  else if is_nan y then y
  else if PrimFloat.ltb x y then x
  else if PrimFloat.ltb y x then y
  else if is_neg_zero x then x else y.

Definition Math_abs (x : float) : float := PrimFloat.abs x.
Definition Math_sqrt (x : float) : float := PrimFloat.sqrt x.

(** [Math.floor(x)]: a finite [x] with a negative exponent is [m * 2^e] with
    [m < 2^53], so its floor fits a Number exactly; every other Number
    (integers, zeros, infinities, NaN) is its own floor. *)
Definition Math_floor (x : float) : float :=
  match Prim2SF x with
  | S754_finite s m e =>
      if (0 <=? e)%Z then x
      else of_Z (cond_Zopp s (Zpos m) / 2 ^ (- e))%Z
  | _ => x
  end.

(** [Math.hypot(x, y)].  ECMAScript fixes the special cases and leaves the
    rest implementation-approximated; the square root of the sum of the
    squares is taken here. *)
Definition Math_hypot (x y : float) : float :=
  if is_infinity x || is_infinity y then infinity
  else PrimFloat.sqrt (x * x + y * y)%float.

(** [Math.pow(x, 2)], the only exponent the program uses. *)
Definition Math_pow_2 (x : float) : float := (x * x)%float.

(** The property key a Number denotes when it indexes an array: the
    non-negative integers below 2^32 (with -0 read as 0) name elements,
    every other Number names a property an array does not have. *)
Definition toIndex (x : float) : option nat :=
  match Prim2SF x with
  | S754_zero _ => Some 0
  | S754_finite false m e =>
      if (0 <=? e)%Z then
        if (Zpos m * 2 ^ e <? 2 ^ 32)%Z then Some (Z.to_nat (Zpos m * 2 ^ e)) else None
      else if (Zpos m mod 2 ^ (- e) =? 0)%Z
           then Some (Z.to_nat (Zpos m / 2 ^ (- e))) else None
  | _ => None
  end.

(** The value of [Math.round(x)]: NaN, an infinity, or an integer (the
    floor of [x + 1/2], computed exactly; -0 and 0 are not told apart,
    they print alike). *)
Inductive rounded := RNaN | RInf (neg : bool) | RInt (z : Z).

Definition Math_round (x : float) : rounded :=
  match Prim2SF x with
  | S754_nan => RNaN
  | S754_infinity s => RInf s
  | S754_zero _ => RInt 0
  | S754_finite s m e =>
      if (0 <=? e)%Z then RInt (cond_Zopp s (Zpos m) * 2 ^ e)
      else RInt ((2 * cond_Zopp s (Zpos m) + 2 ^ (- e)) / 2 ^ (- e + 1))
  end.

(** Number-to-string conversion of such a value.  From 10^21 on
    JavaScript prints an exponent form where this prints all the digits;
    both renderings are injective, which is what a [Map] key needs. *)
Definition toString (r : rounded) : string :=
  match r with
  | RNaN => "NaN"
  | RInf false => "Infinity"
  | RInf true => "-Infinity"
  | RInt z => pretty z
  end.

End JsNum.

Import JsNum.

(** ** Data model *)

(** An endpoint [a] or [b]: the array [[x, y]]. *)
Definition vec2 : Type := float * float.

Record RopePoint := mkPoint {
  x : float;
  y : float;
  oldX : float;
  oldY : float;
  pinned : bool
}.

Record RopeState := mkState {
  points : list RopePoint;
  segmentLen : float;
  lastA : vec2;
  lastB : vec2;
  lastSeen : float
}.

Record Link := mkLink {
  link_id : option Z;
  origin_id : Z;
  target_id : Z
}.

Definition ROPE_SEGMENTS : nat := 8.
Definition ROPE_GRAVITY : float := 0.6.
Definition ROPE_DAMPING : float := 0.985.
Definition ROPE_STIFFNESS : float := 0.25.
Definition ROPE_ITERATIONS : nat := 4.
Definition ROPE_MOMENTUM_TRANSFER : float := 0.7.

(** ** Curve sampler *)

Section CurveSampler.
Local Open Scope float_scope.

Definition bezierPoint (t : float) (a b : vec2) (cp : float) : vec2 :=
  let mt := 1 - t in
  let mt2 := mt * mt in
  let mt3 := mt2 * mt in
  let t2 := t * t in
  let t3 := t2 * t in
  let cpA := a.1 + cp in
  let cpB := b.1 - cp in
  (mt3 * a.1 + 3 * mt2 * t * cpA + 3 * mt * t2 * cpB + t3 * b.1,
   mt3 * a.2 + 3 * mt2 * t * a.2 + 3 * mt * t2 * b.2 + t3 * b.2).

(** [ropePoints[i]] for a Number [i]; [None] is [undefined]. *)
Definition at_index (ropePoints : list RopePoint) (i : float) : option RopePoint :=
  match toIndex i with
  | Some n => ropePoints !! n
  | None => None
  end.

(** [getSmartPoint]; [None] is the TypeError raised by reading [.x] of an
    [undefined] point.  [ropePoints = None] is a null or absent argument. *)
Definition getSmartPoint (t : float) (a b : vec2) (cp : float)
    (ropePoints : option (list RopePoint)) : option vec2 :=
  match ropePoints with
  | Some rp =>
      if (2 <=? length rp)%nat then
        let segmentLen := 1 / of_nat (length rp - 1) in
        let segment := Math_floor (t * of_nat (length rp - 1)) in
        let localT := (t - segment * segmentLen) / segmentLen in
        let i := Math_min segment (of_nat (length rp - 2)) in
        match at_index rp i, at_index rp (i + 1) with
        | Some p1, Some p2 =>
            Some (x p1 + (x p2 - x p1) * localT,
                  y p1 + (y p2 - y p1) * localT)
        | _, _ => None
        end
      else Some (bezierPoint t a b cp)
  | None => Some (bezierPoint t a b cp)
  end.

End CurveSampler.

(** ** Rope simulation store *)

(** The loops of the program, as folds of their body over the indices they
    visit, in the order they visit them. *)
Definition for_each {S : Type} (indices : list nat) (body : nat -> S -> S) (s : S) : S :=
  foldl (fun acc i => body i acc) s indices.

(** [for (let i = lo; i < hi; i++)] *)
Definition up_range (lo hi : nat) : list nat := seq lo (hi - lo).

(** [for (let i = hi; i >= lo; i--)]; the counter of the program may start
    below zero, in which case the loop does not run. *)
Definition down_range (hi lo : Z) : list nat :=
  Z.to_nat <$> reverse (seqZ lo (hi - lo + 1)).

Section Rope.
Local Open Scope float_scope.

Definition getRopeKey (link : option Link) (a b : vec2) : string :=
  match link with
  | Some {| link_id := Some id |} => "link_" +:+ pretty id
  | _ =>
      "pos_" +:+ toString (Math_round (a.1 / 10)) +:+ "_" +:+
      toString (Math_round (a.2 / 10)) +:+ "_" +:+
      toString (Math_round (b.1 / 10)) +:+ "_" +:+
      toString (Math_round (b.2 / 10))
  end.

(** The point pushed at iteration [i] of the loop of [createRopeState]. *)
Definition createRopePoint (a b : vec2) (len : float) (numPoints i : nat) : RopePoint :=
  let t := of_nat i / of_nat (numPoints - 1) in
  let x := a.1 + (b.1 - a.1) * t in
  let sagAmount := Math_min (len * 0.15) 60 in
  let sag := sagAmount * 4 * t * (1 - t) in
  let y := a.2 + (b.2 - a.2) * t + sag in
  {| x := x; y := y; oldX := x; oldY := y;
     pinned := (i =? 0)%nat || (i =? numPoints - 1)%nat |}.

(** [createRopeState]; [now] is the reading of the clock it takes. *)
Definition createRopeState (a b : vec2) (len : float) (now : float) : RopeState :=
  let numPoints := (ROPE_SEGMENTS + 1)%nat in
  {| points := createRopePoint a b len numPoints <$> up_range 0 numPoints;
     segmentLen := len / of_nat (numPoints - 1);
     lastA := a;
     lastB := b;
     lastSeen := now |}.

(** *** The phases of [updateRopePhysics] *)

Definition sub_old (dx dy : float) (p : RopePoint) : RopePoint :=
  {| x := x p; y := y p; oldX := oldX p - dx; oldY := oldY p - dy; pinned := pinned p |}.

(** Momentum transfer from a moved start point. *)
Definition momentumStart (dxStart dyStart : float) (pts : list RopePoint) : list RopePoint :=
  let halfLen := (length pts / 2)%nat in
  for_each (up_range 1 halfLen) (fun i pts =>
    let influence :=
      Math_pow_2 (1 - of_nat i / of_nat halfLen) * ROPE_MOMENTUM_TRANSFER in
    alter (sub_old (dxStart * influence) (dyStart * influence)) i pts) pts.

(** Momentum transfer from a moved end point. *)
Definition momentumEnd (dxEnd dyEnd : float) (pts : list RopePoint) : list RopePoint :=
  let n := length pts in
  let halfLen := (n / 2)%nat in
  for_each (down_range (Z.of_nat n - 2) (Z.of_nat n - Z.of_nat halfLen)) (fun i pts =>
    let distFromEnd := (n - 1 - i)%nat in
    let influence :=
      Math_pow_2 (1 - of_nat distFromEnd / of_nat halfLen) * ROPE_MOMENTUM_TRANSFER in
    alter (sub_old (dxEnd * influence) (dyEnd * influence)) i pts) pts.

Definition pinTo (e : vec2) (p : RopePoint) : RopePoint :=
  {| x := e.1; y := e.2; oldX := e.1; oldY := e.2; pinned := pinned p |}.

(** Endpoint pinning: [points[0]] then [points[points.length - 1]]. *)
Definition pinEndpoints (a b : vec2) (pts : list RopePoint) : list RopePoint :=
  alter (pinTo b) (length pts - 1)%nat (alter (pinTo a) 0%nat pts).

Definition verletPoint (p : RopePoint) : RopePoint :=
  let vx := (x p - oldX p) * ROPE_DAMPING in
  let vy := (y p - oldY p) * ROPE_DAMPING in
  {| x := x p + vx; y := y p + (vy + ROPE_GRAVITY);
     oldX := x p; oldY := y p; pinned := pinned p |}.

(** Verlet integration of the interior points. *)
Definition verlet (pts : list RopePoint) : list RopePoint :=
  for_each (up_range 1 (length pts - 1)) (fun i pts => alter verletPoint i pts) pts.

Definition shift (dx dy : float) (p : RopePoint) : RopePoint :=
  {| x := x p + dx; y := y p + dy; oldX := oldX p; oldY := oldY p; pinned := pinned p |}.

Definition unshift (dx dy : float) (p : RopePoint) : RopePoint :=
  {| x := x p - dx; y := y p - dy; oldX := oldX p; oldY := oldY p; pinned := pinned p |}.

(** The body of the inner constraint loop, for the pair [i], [i + 1]. *)
Definition constrainPair (targetLen : float) (i : nat) (pts : list RopePoint) : list RopePoint :=
  match pts !! i, pts !! (i + 1)%nat with
  | Some p1, Some p2 =>
      let dx := x p2 - x p1 in
      let dy := y p2 - y p1 in
      let dist := Math_sqrt (dx * dx + dy * dy) in
      if ltb dist 0.001 then pts
      else
        let diff := (targetLen - dist) / dist in
        let offsetX := dx * diff * 0.5 in
        let offsetY := dy * diff * 0.5 in
        let pts1 :=
          if pinned p1 then pts
          else alter (unshift (offsetX * ROPE_STIFFNESS) (offsetY * ROPE_STIFFNESS)) i pts in
        if pinned p2 then pts1
        else alter (shift (offsetX * ROPE_STIFFNESS) (offsetY * ROPE_STIFFNESS)) (i + 1)%nat pts1
  | _, _ => pts
  end.

(** One iteration of the outer constraint loop. *)
Definition relax (targetLen : float) (pts : list RopePoint) : list RopePoint :=
  for_each (up_range 0 (length pts - 1)) (constrainPair targetLen) pts.

(** [updateRopePhysics]; [None] is the TypeError of [points[0].x = ...] on
    an empty [points].  With a point to write to, every index the loops
    use is in range.  The result is the state after the call; the value
    returned by the program is its [points]. *)
Definition updateRopePhysics (state : RopeState) (a b : vec2) (len : float)
    : option RopeState :=
  let points0 := points state in
  let dxStart := a.1 - (lastA state).1 in
  let dyStart := a.2 - (lastA state).2 in
  let dxEnd := b.1 - (lastB state).1 in
  let dyEnd := b.2 - (lastB state).2 in
  let startMoved := Math_hypot dxStart dyStart in
  let endMoved := Math_hypot dxEnd dyEnd in
  let points1 := if gtb startMoved 0.1 then momentumStart dxStart dyStart points0 else points0 in
  let points2 := if gtb endMoved 0.1 then momentumEnd dxEnd dyEnd points1 else points1 in
  match points2 with
  | [] => None
  | _ :: _ =>
      let points3 := pinEndpoints a b points2 in
      let points4 := verlet points3 in
      let targetLen := len / of_nat (length points4 - 1) in
      let points5 := Nat.iter ROPE_ITERATIONS (relax targetLen) points4 in
      Some {| points := points5;
              segmentLen := segmentLen state;
              lastA := a;
              lastB := b;
              lastSeen := lastSeen state |}
  end.

End Rope.

(** *** Process-wide state *)

Record Globals := mkGlobals {
  currentEffect : option nat;
  animationMode : string;
  gravityEnabled : bool;
  staticTime : float;
  ropePhysics : gmap string RopeState;
  lastRopeCleanup : float;
  gifEnabled : bool;
  gifUrl : string
}.

(** The state the module starts in. *)
Definition initial : Globals :=
  {| currentEffect := None;
     animationMode := "full";
     gravityEnabled := false;
     staticTime := 5000;
     ropePhysics := ∅;
     lastRopeCleanup := 0;
     gifEnabled := false;
     gifUrl := "" |}.

Definition set_rope (store : gmap string RopeState) (cleanup : float) (g : Globals) : Globals :=
  {| currentEffect := currentEffect g;
     animationMode := animationMode g;
     gravityEnabled := gravityEnabled g;
     staticTime := staticTime g;
     ropePhysics := store;
     lastRopeCleanup := cleanup;
     gifEnabled := gifEnabled g;
     gifUrl := gifUrl g |}.

Definition set_gravityEnabled (v : bool) (g : Globals) : Globals :=
  {| currentEffect := currentEffect g;
     animationMode := animationMode g;
     gravityEnabled := v;
     staticTime := staticTime g;
     ropePhysics := ropePhysics g;
     lastRopeCleanup := lastRopeCleanup g;
     gifEnabled := gifEnabled g;
     gifUrl := gifUrl g |}.

Definition set_animationMode (v : string) (g : Globals) : Globals :=
  {| currentEffect := currentEffect g;
     animationMode := v;
     gravityEnabled := gravityEnabled g;
     staticTime := staticTime g;
     ropePhysics := ropePhysics g;
     lastRopeCleanup := lastRopeCleanup g;
     gifEnabled := gifEnabled g;
     gifUrl := gifUrl g |}.

Definition set_currentEffect (v : option nat) (g : Globals) : Globals :=
  {| currentEffect := v;
     animationMode := animationMode g;
     gravityEnabled := gravityEnabled g;
     staticTime := staticTime g;
     ropePhysics := ropePhysics g;
     lastRopeCleanup := lastRopeCleanup g;
     gifEnabled := gifEnabled g;
     gifUrl := gifUrl g |}.

Definition set_lastSeen (now : float) (s : RopeState) : RopeState :=
  {| points := points s;
     segmentLen := segmentLen s;
     lastA := lastA s;
     lastB := lastB s;
     lastSeen := now |}.

(** The readings of the clock ([performance.now()]) one call of
    [getRopePoints] may take: in [createRopeState] for a key not yet in the
    store, in [getRopePoints] itself, and in [createRopeState] when the rope
    is recreated. *)
Record Readings := mkReadings {
  t_create : float;
  t_now : float;
  t_recreate : float
}.

(** How a call ends: it returns a value, or a TypeError escapes it; either
    way the process-wide state is left as the call made it. *)
Inductive completion (A : Type) :=
| Normal (v : A) (g : Globals)
| Abrupt (g : Globals).
Arguments Normal {A} v g.
Arguments Abrupt {A} g.

Definition globals_of {A : Type} (c : completion A) : Globals :=
  match c with Normal _ g => g | Abrupt g => g end.

Section Store.
Local Open Scope float_scope.

(** The test of the sweep: the entry was last seen more than 8 s ago. *)
Definition stale (now : float) (s : RopeState) : bool :=
  gtb (now - lastSeen s) 8000.

(** The sweep: [Map.prototype.delete] on every stale entry.  Deleting
    during the iteration of a [Map] does not make it skip an entry. *)
Definition sweep (now : float) (store : gmap string RopeState) : gmap string RopeState :=
  filter (fun kv => stale now kv.2 = false) store.

(** The test of the resize detection. *)
Definition resized (state : RopeState) (len : float) : bool :=
  let expectedLen := len / of_nat ROPE_SEGMENTS in
  gtb (Math_abs (segmentLen state - expectedLen)) 20.

(** [getRopePoints].  The returned [points] array is the one of the state
    left in the store; [None] is [null]. *)
Definition getRopePoints (g : Globals) (link : option Link) (a b : vec2) (len : float)
    (clk : Readings) : completion (option (list RopePoint)) :=
  if negb (gravityEnabled g) then Normal None g
  else
    let key := getRopeKey link a b in
    let state0 :=
      match ropePhysics g !! key with
      | Some s => s
      | None => createRopeState a b len (t_create clk)
      end in
    let now := t_now clk in
    let state := set_lastSeen now state0 in
    let store1 := <[key := state]> (ropePhysics g) in
    let '(store2, cleanup) :=
      if (60 <? size store1)%nat && gtb (now - lastRopeCleanup g) 3000
      then (sweep now store1, now)
      else (store1, lastRopeCleanup g) in
    if resized state len then
      let fresh := createRopeState a b len (t_recreate clk) in
      Normal (Some (points fresh)) (set_rope (<[key := fresh]> store2) cleanup g)
    else
      match updateRopePhysics state a b len with
      | Some state' =>
          Normal (Some (points state'))
                 (set_rope (alter (fun _ => state') key store2) cleanup g)
      | None => Abrupt (set_rope store2 cleanup g)
      end.

(** The click handler of the gravity switch of the side panel, as far as
    the state above goes. *)
Definition toggleGravity (g : Globals) : Globals :=
  let g' := set_gravityEnabled (negb (gravityEnabled g)) g in
  if negb (gravityEnabled g') then set_rope ∅ (lastRopeCleanup g') g' else g'.

End Store.

(** ** Render dispatch *)

(** What the program reads of the host application: the own keys of
    [app.canvas.selected_nodes], or [None] when [app], [app.canvas] or the
    object itself is missing. *)
Record Host := mkHost {
  selected_nodes : option (list string)
}.

(** *** [parseInt] without a radix, on ASCII input *)

Definition is_white_space (c : Ascii.ascii) : bool :=
  let n := Ascii.nat_of_ascii c in
  ((9 <=? n) && (n <=? 13) || (n =? 32))%nat.

Fixpoint trim_start (s : string) : string :=
  match s with
  | String c s' => if is_white_space c then trim_start s' else s
  | EmptyString => s
  end.

Definition digit_value (c : Ascii.ascii) : option Z :=
  let n := Z.of_nat (Ascii.nat_of_ascii c) in
  if ((48 <=? n) && (n <=? 57))%Z then Some (n - 48)%Z
  else if ((97 <=? n) && (n <=? 122))%Z then Some (n - 87)%Z
  else if ((65 <=? n) && (n <=? 90))%Z then Some (n - 55)%Z
  else None.

(** The longest prefix of digits of the radix; [None] when it is empty. *)
Fixpoint parse_digits (radix : Z) (s : string) (acc : option Z) : option Z :=
  match s with
  | String c s' =>
      match digit_value c with
      | Some d =>
          if (d <? radix)%Z
          then parse_digits radix s' (Some (default 0 acc * radix + d))%Z
          else acc
      | None => acc
      end
  | EmptyString => acc
  end.

(** [parseInt(s)]; [None] is NaN.  The integer is kept exact (a Number
    rounds it from 2^53 on). *)
Definition parseInt (s : string) : option Z :=
  let s1 := trim_start s in
  let '(negative, s2) :=
    match s1 with
    | String "-"%char r => (true, r)
    | String "+"%char r => (false, r)
    | _ => (false, s1)
    end in
  let '(radix, s3) :=
    match s2 with
    | String "0"%char (String "x"%char r) => (16, r)
    | String "0"%char (String "X"%char r) => (16, r)
    | _ => (10, s2)
    end%Z in
  match parse_digits radix s3 None with
  | Some n => Some (if negative then (- n)%Z else n)
  | None => None
  end.

(** The elements of the [Set] built by [getSelectedNodeIds] (a [Set] keeps
    one copy of each; only its emptiness and membership are used). *)
Definition getSelectedNodeIds (h : Host) : list (option Z) :=
  match selected_nodes h with
  | None => []
  | Some keys => parseInt <$> keys
  end.

(** [Set.prototype.has] for a node id, which is a Number and not NaN. *)
Definition has (ids : list (option Z)) (id : Z) : bool :=
  existsb (fun e => match e with Some n => (n =? id)%Z | None => false end) ids.

(** [shouldAnimateLink]; [link = None] is a null or absent link. *)
Definition shouldAnimateLink (g : Globals) (h : Host) (link : option Link) : bool :=
  if String.eqb (animationMode g) "full" then true
  else if String.eqb (animationMode g) "static" then true
  else if String.eqb (animationMode g) "selected" then
    match link with
    | None => true
    | Some l =>
        let selectedIds := getSelectedNodeIds h in
        if (length selectedIds =? 0)%nat then false
        else has selectedIds (origin_id l) || has selectedIds (target_id l)
    end
  else false.

(** [getTimeForEffect]; [perf_now] is the reading of the clock. *)
Definition getTimeForEffect (g : Globals) (perf_now : float) : float :=
  if String.eqb (animationMode g) "static" then staticTime g else perf_now.

(** A value passed as endpoint [a] or [b] of a draw request. *)
Inductive JsVal :=
| JNullish
    (** [null] or [undefined]: reading a property of it throws *)
| JArray (e0 e1 : float)
    (** an Array; [e0], [e1] are its entries 0 and 1 read as Numbers *)
| JOther (iterable : bool) (e0 e1 : float).
    (** any other value (typed array, string, plain object, number, ...),
        iterable or not; [e0], [e1] as above, NaN for a missing entry *)

Definition Array_isArray (v : JsVal) : bool :=
  match v with JArray _ _ => true | _ => false end.

(** [[v[0], v[1]]] as Numbers; [None] is the TypeError of indexing a
    nullish value. *)
Definition entries (v : JsVal) : option vec2 :=
  match v with
  | JNullish => None
  | JArray e0 e1 => Some (e0, e1)
  | JOther _ e0 e1 => Some (e0, e1)
  end.

(** Whether [[...v]] succeeds. *)
Definition spreadable (v : JsVal) : bool :=
  match v with
  | JNullish => false
  | JArray _ _ => true
  | JOther iterable _ _ => iterable
  end.

(** What a draw request does that can be seen from outside. *)
Inductive DrawEvent :=
| GifUpdate
| EffectDraw (effect : nat) (now len : float) (ropePoints : option (list RopePoint))
| RopeDraw (pts : list RopePoint) (color : string) (lineWidth : float)
| OriginalRenderLink.

(** How a draw request ends: it returns, having done [trace], or a
    TypeError escapes it, which happens before anything is drawn. *)
Inductive Dispatched :=
| Returned (trace : list DrawEvent) (g : Globals)
| Threw.

Definition NUM_EFFECTS : nat := 10.

(** [patchedRenderLink].  [ctx] tells whether a drawing context was passed.
    The effect and the GIF update run inside [try ... catch]: what they
    throw does not escape, and [EFFECTS[currentEffect]] out of range draws
    nothing.  With gravity enabled [getRopePoints] copies the endpoints with
    [[...a]] and [[...b]] on each of its paths (in [createRopeState] or at
    the end of [updateRopePhysics]), hence the second test. *)
Definition patchedRenderLink (g : Globals) (h : Host) (ctx : bool) (a b : JsVal)
    (link : option Link) (color : option string) (clk : Readings) (perf_now : float)
    : Dispatched :=
  match entries b, entries a with
  | Some vb, Some va =>
      let len := Math_hypot (vb.1 - va.1) (vb.2 - va.2) in
      if gravityEnabled g && negb (spreadable a && spreadable b) then Threw
      else
        match getRopePoints g link va vb len clk with
        | Abrupt _ => Threw
        | Normal ropePoints g1 =>
            let animate := shouldAnimateLink g1 h link in
            let gif :=
              if gifEnabled g1 && negb (String.eqb (gifUrl g1) "") && animate
              then [GifUpdate] else [] in
            let effect :=
              match currentEffect g1 with
              | Some e =>
                  if ctx && Array_isArray a && Array_isArray b && animate
                     && (e <? NUM_EFFECTS)%nat
                  then [EffectDraw e (getTimeForEffect g1 perf_now) len ropePoints]
                  else []
              | None => []
              end in
            match (if gravityEnabled g1 && ctx then ropePoints else None) with
            | Some pts =>
                let stroke :=
                  match color with
                  | Some c => if String.eqb c "" then "rgba(150, 150, 150, 0.8)" else c
                  | None => "rgba(150, 150, 150, 0.8)"
                  end in
                Returned (gif ++ effect ++ [RopeDraw pts stroke 2]) g1
            | None =>
                match currentEffect g1 with
                | None =>
                    if negb (gravityEnabled g1)
                    then Returned (gif ++ effect ++ [OriginalRenderLink]) g1
                    else Returned (gif ++ effect) g1
                | Some _ => Returned (gif ++ effect) g1
                end
            end
        end
  | _, _ => Threw
  end.

(** ** Invariants, runs and observations *)

(** The layout of the [pinned] flags [createRopeState] gives a rope: nine
    points, the first and the last pinned. *)
Definition pinned_layout : list bool :=
  (fun i => (i =? 0)%nat || (i =? ROPE_SEGMENTS)%nat) <$> seq 0 (ROPE_SEGMENTS + 1).

Definition RopeInv (s : RopeState) : Prop :=
  pinned <$> points s = pinned_layout.

Definition store_ok (g : Globals) : Prop :=
  map_Forall (fun _ s => RopeInv s) (ropePhysics g).

Definition pinned_at (pts : list RopePoint) (i : nat) : bool :=
  match pts !! i with Some p => pinned p | None => false end.

(** At least two points, the first and the last pinned. *)
Definition ends_pinned (pts : list RopePoint) : bool :=
  (2 <=? length pts)%nat && pinned_at pts 0 && pinned_at pts (length pts - 1).

(** A point at rest at [e]. *)
Definition at_rest (e : vec2) (flag : bool) : RopePoint :=
  {| x := e.1; y := e.2; oldX := e.1; oldY := e.2; pinned := flag |}.

(** The arguments [a], [b], [len] of one call of [updateRopePhysics]. *)
Definition Step : Type := vec2 * vec2 * float.

Definition run_steps (s : RopeState) (steps : list Step) : option RopeState :=
  foldl (fun o '(a, b, len) => o ≫= fun s => updateRopePhysics s a b len) (Some s) steps.

(** What happens to the store: a request for rope points, or a click on the
    gravity switch. *)
Inductive Event :=
| Request (link : option Link) (a b : vec2) (len : float) (clk : Readings)
| GravityClick.

Definition step_event (g : Globals) (e : Event) : Globals :=
  match e with
  | Request link a b len clk => globals_of (getRopePoints g link a b len clk)
  | GravityClick => toggleGravity g
  end.

Definition run (g : Globals) (es : list Event) : Globals := foldl step_event g es.

(** The state the request for [key] works on: the stored one, or the one
    created for a key seen for the first time; its [lastSeen] is set. *)
Definition state_before (g : Globals) (link : option Link) (a b : vec2) (len : float)
    (clk : Readings) : RopeState :=
  set_lastSeen (t_now clk)
    (match ropePhysics g !! getRopeKey link a b with
     | Some s => s
     | None => createRopeState a b len (t_create clk)
     end).

(** The integration step in the words of the specification: momentum
    transfer, endpoint pinning, Verlet integration, four constraint
    iterations, on the points of [s]. *)
Definition integration_step (s : RopeState) (a b : vec2) (len : float) : list RopePoint :=
  let dxStart := (a.1 - (lastA s).1)%float in
  let dyStart := (a.2 - (lastA s).2)%float in
  let dxEnd := (b.1 - (lastB s).1)%float in
  let dyEnd := (b.2 - (lastB s).2)%float in
  let moved1 :=
    if gtb (Math_hypot dxStart dyStart) 0.1
    then momentumStart dxStart dyStart (points s) else points s in
  let moved2 :=
    if gtb (Math_hypot dxEnd dyEnd) 0.1
    then momentumEnd dxEnd dyEnd moved1 else moved1 in
  let integrated := verlet (pinEndpoints a b moved2) in
  let targetLen := (len / of_nat (length integrated - 1))%float in
  relax targetLen (relax targetLen (relax targetLen (relax targetLen integrated))).

(** The claim that every request with gravity enabled advances the rope of
    its key by one integration step, at one request. *)
Definition advanced_one_step (g : Globals) (link : option Link) (a b : vec2) (len : float)
    (clk : Readings) : Prop :=
  exists s',
    ropePhysics (globals_of (getRopePoints g link a b len clk)) !! getRopeKey link a b = Some s'
    /\ points s' = integration_step (state_before g link a b len clk) a b len.

Definition threw (r : Dispatched) : bool :=
  match r with Threw => true | Returned _ _ => false end.

Definition is_EffectDraw (e : DrawEvent) : bool :=
  match e with EffectDraw _ _ _ _ => true | _ => false end.

Definition is_OriginalRenderLink (e : DrawEvent) : bool :=
  match e with OriginalRenderLink => true | _ => false end.

Definition draws_effect (r : Dispatched) : bool :=
  match r with Returned trace _ => existsb is_EffectDraw trace | Threw => false end.

Definition calls_original (r : Dispatched) : bool :=
  match r with Returned trace _ => existsb is_OriginalRenderLink trace | Threw => false end.


#[global] Instance RopeInv_dec (s : RopeState) : Decision (RopeInv s).
Proof. unfold RopeInv. apply _. Defined.

#[global] Instance store_ok_dec (g : Globals) : Decision (store_ok g).
Proof. unfold store_ok. apply _. Defined.

(** ** Scenarios *)

Module Scenario.

Definition a : vec2 := (0, 0)%float.
Definition b : vec2 := (100, 0)%float.
Definition far_b : vec2 := (1000, 0)%float.

Definition link (n : Z) : option Link :=
  Some {| link_id := Some n; origin_id := 5; target_id := 9 |}.

Definition clock (t : float) : Readings :=
  {| t_create := t; t_now := t; t_recreate := t |}.

(** The rope of a connector from [a] to [b] of length 100. *)
Definition rope : RopeState := createRopeState a b 100 0.

(** Gravity switched on, then 61 connectors drawn at time 1000. *)
Definition sixty_one : Globals :=
  run initial
    (GravityClick :: ((fun n => Request (link (Z.of_nat n)) a b 100 (clock 1000)) <$> seq 0 61)).

Definition rope_of (g : Globals) (key : string) : RopeState :=
  default rope (ropePhysics g !! key).

(** Gravity switched on and connector 3 drawn once. *)
Definition one_rope : Globals :=
  run initial [GravityClick; Request (link 3) a b 100 (clock 1000)].

(** An effect selected, gravity off. *)
Definition with_effect : Globals := set_currentEffect (Some 0) initial.

Definition node_5_selected : Host := {| selected_nodes := Some ["5"] |}.

End Scenario.

(** ** Stroking the curve *)

(** The calls made on the drawing context, in order. *)
Inductive CanvasOp :=
| BeginPath
| MoveTo (px py : float)
| QuadraticCurveTo (cpx cpy px py : float)
| BezierCurveTo (cp1x cp1y cp2x cp2y px py : float)
| LineTo (px py : float)
| SetStrokeStyle (style : string)
| SetLineWidth (width : float)
| Stroke.

Section Stroking.
Local Open Scope float_scope.

Definition drawBezier (a b : vec2) (cp : float) : list CanvasOp :=
  [BeginPath;
   MoveTo a.1 a.2;
   BezierCurveTo (a.1 + cp) a.2 (b.1 - cp) b.2 b.1 b.2;
   Stroke].

(** A Number used as a condition: 0, -0 and NaN are falsy. *)
Definition truthy (v : float) : bool := negb (PrimFloat.is_nan v || PrimFloat.is_zero v).

(** The body of the loop of [drawRope]: the quadratic segment through
    [points[i]] to the middle of [points[i]] and [points[i + 1]].  The loop
    only visits indices with both points in the array. *)
Definition ropeSegment (points : list RopePoint) (i : nat) : list CanvasOp :=
  match points !! i, points !! (i + 1)%nat with
  | Some p, Some q =>
      let xc := (x p + x q) / 2 in
      let yc := (y p + y q) / 2 in
      [QuadraticCurveTo (x p) (y p) xc yc]
  | _, _ => []
  end.

(** [drawRope]; [points = None] is a null or absent argument, and so are
    [color = None] and [lineWidth = None]. *)
Definition drawRope (points : option (list RopePoint)) (color : option string)
    (lineWidth : option float) : list CanvasOp :=
  let color :=
    match color with
    | Some c => if String.eqb c "" then "rgba(150, 150, 150, 0.8)" else c
    | None => "rgba(150, 150, 150, 0.8)"
    end in
  let lineWidth :=
    match lineWidth with
    | Some w => if truthy w then w else 2
    | None => 2
    end in
  match points with
  | None => []
  | Some points =>
      if (length points <? 2)%nat then []
      else
        match points !! 0%nat, points !! (length points - 1)%nat with
        | Some first, Some last =>
            [BeginPath; MoveTo (x first) (y first)]
            ++ for_each (up_range 1 (length points - 1))
                 (fun i ops => ops ++ ropeSegment points i) []
            ++ [LineTo (x last) (y last);
                SetStrokeStyle color;
                SetLineWidth lineWidth;
                Stroke]
        | _, _ => []
        end
  end.

(** The body of the loop of [drawSmartCurve]. *)
Definition smartSegment (ropePoints : list RopePoint) (i : nat) : list CanvasOp :=
  match ropePoints !! i, ropePoints !! (i + 1)%nat with
  | Some p, Some q =>
      let xc := (x p + x q) / 2 in
      let yc := (y p + y q) / 2 in
      [QuadraticCurveTo (x p) (y p) xc yc]
  | _, _ => []
  end.

Definition drawSmartCurve (a b : vec2) (cp : float) (ropePoints : option (list RopePoint))
    : list CanvasOp :=
  match ropePoints with
  | Some rp =>
      if (2 <=? length rp)%nat then
        match rp !! 0%nat, rp !! (length rp - 1)%nat with
        | Some first, Some last =>
            [BeginPath; MoveTo (x first) (y first)]
            ++ for_each (up_range 1 (length rp - 1))
                 (fun i ops => ops ++ smartSegment rp i) []
            ++ [LineTo (x last) (y last); Stroke]
        | _, _ => []
        end
      else drawBezier a b cp
  | None => drawBezier a b cp
  end.

End Stroking.

(** ** The second hook *)

(** [patchedDrawLink], installed when the host has [drawLink] and no
    [renderLink]: it takes no color, and strokes the rope in the default
    one. *)
Definition patchedDrawLink (g : Globals) (h : Host) (ctx : bool) (a b : JsVal)
    (link : option Link) (clk : Readings) (perf_now : float) : Dispatched :=
  match entries b, entries a with
  | Some vb, Some va =>
      let len := Math_hypot (vb.1 - va.1) (vb.2 - va.2) in
      if gravityEnabled g && negb (spreadable a && spreadable b) then Threw
      else
        match getRopePoints g link va vb len clk with
        | Abrupt _ => Threw
        | Normal ropePoints g1 =>
            let animate := shouldAnimateLink g1 h link in
            let gif :=
              if gifEnabled g1 && negb (String.eqb (gifUrl g1) "") && animate
              then [GifUpdate] else [] in
            let effect :=
              match currentEffect g1 with
              | Some e =>
                  if ctx && Array_isArray a && Array_isArray b && animate
                     && (e <? NUM_EFFECTS)%nat
                  then [EffectDraw e (getTimeForEffect g1 perf_now) len ropePoints]
                  else []
              | None => []
              end in
            match (if gravityEnabled g1 && ctx then ropePoints else None) with
            | Some pts =>
                Returned (gif ++ effect ++ [RopeDraw pts "rgba(150, 150, 150, 0.8)" 2]) g1
            | None =>
                match currentEffect g1 with
                | None =>
                    if negb (gravityEnabled g1)
                    then Returned (gif ++ effect ++ [OriginalRenderLink]) g1
                    else Returned (gif ++ effect) g1
                | Some _ => Returned (gif ++ effect) g1
                end
            end
        end
  | _, _ => Threw
  end.

(** ** Installing the hooks and scheduling redraws *)

(** A link-drawing method of the host's canvas class: the host's own, or
    one of the two replacements. *)
Inductive LinkMethod := HostMethod | PatchedRenderLink | PatchedDrawLink.

(** The prototype of the canvas class, as far as the two methods go;
    [None] is a property that is not a function. *)
Record Proto := mkProto {
  renderLink : option LinkMethod;
  drawLink : option LinkMethod
}.

(** [installed], [originalRenderLink], and the prototype [installHooks]
    finds ([None] while the host has no canvas class yet). *)
Record Hooks := mkHooks {
  installed : bool;
  originalRenderLink : option LinkMethod;
  canvas_proto : option Proto
}.

(** [installHooks]; without a canvas class it only schedules itself again
    with [setTimeout]. *)
Definition installHooks (k : Hooks) : Hooks :=
  if installed k then k
  else
    match canvas_proto k with
    | None => k
    | Some proto =>
        match renderLink proto with
        | Some f =>
            {| installed := true;
               originalRenderLink := Some f;
               canvas_proto :=
                 Some {| renderLink := Some PatchedRenderLink; drawLink := drawLink proto |} |}
        | None =>
            match drawLink proto with
            | Some f =>
                {| installed := true;
                   originalRenderLink := Some f;
                   canvas_proto :=
                     Some {| renderLink := None; drawLink := Some PatchedDrawLink |} |}
            | None =>
                {| installed := true;
                   originalRenderLink := originalRenderLink k;
                   canvas_proto := Some proto |}
            end
        end
    end.

(** The state of the side panel's handlers: the settings, whether a frame
    of the animation loop is requested ([animationLoopId]), the hooks. *)
Record App := mkApp {
  globals : Globals;
  animationLoopId : bool;
  hooks : Hooks
}.

Definition set_gifEnabled (v : bool) (g : Globals) : Globals :=
  {| currentEffect := currentEffect g;
     animationMode := animationMode g;
     gravityEnabled := gravityEnabled g;
     staticTime := staticTime g;
     ropePhysics := ropePhysics g;
     lastRopeCleanup := lastRopeCleanup g;
     gifEnabled := v;
     gifUrl := gifUrl g |}.

Definition startAnimationLoop (app : App) : App :=
  if animationLoopId app then app
  else {| globals := globals app; animationLoopId := true; hooks := hooks app |}.

Definition stopAnimationLoop (app : App) : App :=
  if animationLoopId app
  then {| globals := globals app; animationLoopId := false; hooks := hooks app |}
  else app.

(** [needsAnimation] of [selectEffect], [needsRedraw] of the loop. *)
Definition needsAnimation (g : Globals) : bool :=
  (match currentEffect g with Some _ => true | None => false end
   && negb (String.eqb (animationMode g) "static"))
  || gravityEnabled g || gifEnabled g.

(** [selectEffect(index)]; [index = None] is [null]. *)
Definition selectEffect (index : option nat) (app : App) : App :=
  let app1 :=
    {| globals := set_currentEffect index (globals app);
       animationLoopId := animationLoopId app;
       hooks := hooks app |} in
  let app2 :=
    if negb (installed (hooks app1)) && match index with Some _ => true | None => false end
    then {| globals := globals app1;
            animationLoopId := animationLoopId app1;
            hooks := installHooks (hooks app1) |}
    else app1 in
  if needsAnimation (globals app2) then startAnimationLoop app2 else stopAnimationLoop app2.

(** The click handler of the gravity switch. *)
Definition gravityClick (app : App) : App :=
  let g1 := set_gravityEnabled (negb (gravityEnabled (globals app))) (globals app) in
  let app1 := {| globals := g1; animationLoopId := animationLoopId app; hooks := hooks app |} in
  let app2 :=
    if gravityEnabled g1 then startAnimationLoop app1
    else if match currentEffect g1 with None => true | Some _ => false end
            && negb (gifEnabled g1) && String.eqb (animationMode g1) "static"
         then stopAnimationLoop app1
         else app1 in
  if negb (gravityEnabled g1)
  then {| globals := set_rope ∅ (lastRopeCleanup g1) (globals app2);
          animationLoopId := animationLoopId app2;
          hooks := hooks app2 |}
  else app2.

(** The click handler of a mode button. *)
Definition modeClick (modeId : string) (app : App) : App :=
  let g1 := set_animationMode modeId (globals app) in
  let app1 := {| globals := g1; animationLoopId := animationLoopId app; hooks := hooks app |} in
  if String.eqb (animationMode g1) "static" && negb (gifEnabled g1)
  then stopAnimationLoop app1
  else if match currentEffect g1 with Some _ => true | None => false end || gifEnabled g1
       then startAnimationLoop app1
       else app1.

(** The click handler of the GIF switch, as far as this state goes (it also
    creates or empties the overlay's container). *)
Definition gifToggleClick (app : App) : App :=
  let g1 := set_gifEnabled (negb (gifEnabled (globals app))) (globals app) in
  let app1 := {| globals := g1; animationLoopId := animationLoopId app; hooks := hooks app |} in
  if gifEnabled g1 then
    if negb (String.eqb (gifUrl g1) "") then startAnimationLoop app1 else app1
  else
    if match currentEffect g1 with None => true | Some _ => false end
       && negb (gravityEnabled g1)
    then stopAnimationLoop app1
    else app1.

(** What the user does in the side panel. *)
Inductive PanelEvent :=
| SelectEffect (index : option nat)
| ClickGravity
| ClickMode (modeId : string)
| ClickGif.

Definition panel_step (app : App) (e : PanelEvent) : App :=
  match e with
  | SelectEffect index => selectEffect index app
  | ClickGravity => gravityClick app
  | ClickMode modeId => modeClick modeId app
  | ClickGif => gifToggleClick app
  end.

Definition panel_run (app : App) (es : list PanelEvent) : App := foldl panel_step app es.

(** The program as loaded, on a host whose canvas class has [renderLink]. *)
Definition loaded : App :=
  {| globals := initial;
     animationLoopId := false;
     hooks := {| installed := false;
                 originalRenderLink := None;
                 canvas_proto := Some {| renderLink := Some HostMethod;
                                         drawLink := Some HostMethod |} |} |}.

(** No replacement method is taken for the host's own. *)
Definition original_is_host (k : Hooks) : Prop :=
  originalRenderLink k = None \/ originalRenderLink k = Some HostMethod.

(** Before the installation the prototype holds the host's methods. *)
Definition proto_untouched (k : Hooks) : Prop :=
  installed k = false ->
  forall proto, canvas_proto k = Some proto ->
    (renderLink proto = None \/ renderLink proto = Some HostMethod) /\
    (drawLink proto = None \/ drawLink proto = Some HostMethod).

(** ** More observations *)

Definition is_RopeDraw (e : DrawEvent) : bool :=
  match e with RopeDraw _ _ _ => true | _ => false end.

Definition draws_rope (r : Dispatched) : bool :=
  match r with Returned trace _ => existsb is_RopeDraw trace | Threw => false end.

(** The GIF update of a draw request, when it is made. *)
Definition gif_part (g : Globals) (h : Host) (link : option Link) : list DrawEvent :=
  if gifEnabled g && negb (String.eqb (gifUrl g) "") && shouldAnimateLink g h link
  then [GifUpdate] else [].

(** The effect drawing of a draw request, when it is made. *)
Definition effect_part (g : Globals) (h : Host) (ctx : bool) (a b : JsVal)
    (link : option Link) (len : float) (ropePoints : option (list RopePoint))
    (perf_now : float) : list DrawEvent :=
  match currentEffect g with
  | Some e =>
      if ctx && Array_isArray a && Array_isArray b && shouldAnimateLink g h link
         && (e <? NUM_EFFECTS)%nat
      then [EffectDraw e (getTimeForEffect g perf_now) len ropePoints]
      else []
  | None => []
  end.

(** [color || "rgba(150, 150, 150, 0.8)"] *)
Definition stroke_of (color : option string) : string :=
  match color with
  | Some c => if String.eqb c "" then "rgba(150, 150, 150, 0.8)" else c
  | None => "rgba(150, 150, 150, 0.8)"
  end.

(** How a draw request draws the connector itself: as the rope, by the
    host's routine, or not at all. *)
Definition connector_part (g : Globals) (ctx : bool) (color : option string)
    (ropePoints : option (list RopePoint)) : list DrawEvent :=
  match (if gravityEnabled g && ctx then ropePoints else None) with
  | Some pts => [RopeDraw pts (stroke_of color) 2]
  | None =>
      match currentEffect g with
      | None => if negb (gravityEnabled g) then [OriginalRenderLink] else []
      | Some _ => []
      end
  end.

(** The position and the previous position of each point. *)
Definition position (p : RopePoint) : float * float := (x p, y p).
Definition previous (p : RopePoint) : float * float := (oldX p, oldY p).

(** * Properties *)

(** ** Numbers *)

Section Numbers.
Local Open Scope float_scope.

(** A Number minus itself is +0, or NaN (for NaN and the infinities). *)
Lemma sub_diag_cases (v : float) :
  Prim2SF (v - v) = S754_zero false \/ Prim2SF (v - v) = S754_nan.
Proof.
  rewrite FloatAxioms.sub_spec. unfold SF64sub.
  destruct (Prim2SF v) as [[]|[]| |s m e]; simpl; auto.
  left. unfold SFsub. rewrite Z.sub_diag. reflexivity.
Qed.

Lemma gtb_sub_diag_8000 (v : float) : gtb (v - v) 8000 = false.
Proof.
  unfold gtb. rewrite FloatAxioms.ltb_spec.
  destruct (sub_diag_cases v) as [-> | ->]; vm_compute; reflexivity.
Qed.

Lemma gtb_abs_sub_diag_20 (v : float) : gtb (Math_abs (v - v)) 20 = false.
Proof.
  unfold gtb, Math_abs. rewrite FloatAxioms.ltb_spec, FloatAxioms.abs_spec.
  destruct (sub_diag_cases v) as [-> | ->]; vm_compute; reflexivity.
Qed.

End Numbers.

(** ** Loops and the phases of the integration step *)

Lemma for_each_invariant {S : Type} (P : S -> Prop) indices body (s : S) :
  P s ->
  (forall i acc, i ∈ indices -> P acc -> P (body i acc)) ->
  P (for_each indices body s).
Proof.
  unfold for_each. revert s.
  induction indices as [|i indices IH]; intros s Hs Hbody; simpl; [exact Hs|].
  apply IH.
  - apply Hbody; [left | exact Hs].
  - intros j acc Hj. apply Hbody. now right.
Qed.

(** The indices the loops of [updateRopePhysics] visit on [n] points are
    indices of points: no access of the program is out of range there. *)
Lemma loop_indices_in_range (n i : nat) :
  (i ∈ up_range 1 (n / 2) ++ down_range (Z.of_nat n - 2) (Z.of_nat n - Z.of_nat (n / 2))
       ++ up_range 1 (n - 1) -> i < n) /\
  (i ∈ up_range 0 (n - 1) -> i + 1 < n).
Proof.
  unfold up_range, down_range.
  rewrite !elem_of_app, !elem_of_seq, list_elem_of_fmap.
  setoid_rewrite elem_of_reverse. setoid_rewrite elem_of_seqZ.
  assert (n / 2 <= n) by (apply Nat.Div0.div_le_upper_bound; lia).
  split; [intros [H1 | [(z & -> & Hz) | H1]] | intros H1]; lia.
Qed.

Lemma flags_alter (f : RopePoint -> RopePoint) i (pts : list RopePoint) :
  (forall p, pinned (f p) = pinned p) ->
  pinned <$> alter f i pts = pinned <$> pts.
Proof.
  intros Hf. revert i.
  induction pts as [|p pts IH]; intros [|i]; simpl; try reflexivity.
  - now rewrite Hf.
  - f_equal. apply IH.
Qed.

Lemma flags_length (pts pts' : list RopePoint) :
  pinned <$> pts' = pinned <$> pts -> length pts' = length pts.
Proof. intros H. apply (f_equal length) in H. now rewrite !length_fmap in H. Qed.

Lemma flags_pinned_at (pts pts' : list RopePoint) i :
  pinned <$> pts' = pinned <$> pts -> pinned_at pts' i = pinned_at pts i.
Proof.
  intros H. apply (f_equal (fun l => l !! i)) in H.
  rewrite !list_lookup_fmap in H. unfold pinned_at.
  destruct (pts' !! i), (pts !! i); simpl in H; congruence.
Qed.

Lemma for_each_alter_flags (f : nat -> RopePoint -> RopePoint) indices
    (pts : list RopePoint) :
  (forall i p, pinned (f i p) = pinned p) ->
  pinned <$> for_each indices (fun i acc => alter (f i) i acc) pts = pinned <$> pts.
Proof.
  intros Hf.
  apply (for_each_invariant (fun acc => pinned <$> acc = pinned <$> pts)); [reflexivity|].
  intros i acc _ Hacc. rewrite flags_alter; [exact Hacc | apply Hf].
Qed.

Lemma momentumStart_flags dx dy pts :
  pinned <$> momentumStart dx dy pts = pinned <$> pts.
Proof.
  unfold momentumStart.
  apply (for_each_alter_flags (fun i => sub_old _ _)). reflexivity.
Qed.

Lemma momentumEnd_flags dx dy pts :
  pinned <$> momentumEnd dx dy pts = pinned <$> pts.
Proof.
  unfold momentumEnd.
  apply (for_each_alter_flags (fun i => sub_old _ _)). reflexivity.
Qed.

Lemma pinEndpoints_flags a b pts :
  pinned <$> pinEndpoints a b pts = pinned <$> pts.
Proof. unfold pinEndpoints. rewrite !flags_alter; reflexivity. Qed.

Lemma verlet_flags pts : pinned <$> verlet pts = pinned <$> pts.
Proof.
  unfold verlet. apply (for_each_alter_flags (fun _ => verletPoint)). reflexivity.
Qed.

Lemma constrainPair_flags targetLen i pts :
  pinned <$> constrainPair targetLen i pts = pinned <$> pts.
Proof.
  unfold constrainPair.
  destruct (pts !! i) as [p1|]; [|reflexivity].
  destruct (pts !! (i + 1)) as [p2|]; [|reflexivity].
  destruct (ltb _ _); [reflexivity|].
  destruct (pinned p1), (pinned p2); rewrite ?flags_alter; reflexivity.
Qed.

Lemma relax_flags targetLen pts : pinned <$> relax targetLen pts = pinned <$> pts.
Proof.
  unfold relax.
  apply (for_each_invariant (fun acc => pinned <$> acc = pinned <$> pts)); [reflexivity|].
  intros i acc _ Hacc. now rewrite constrainPair_flags.
Qed.

(** Whether or not an end moved, the flags are those before the momentum
    transfer. *)
Ltac momentum_cases :=
  destruct (gtb _ _); destruct (gtb _ _);
  rewrite ?momentumEnd_flags, ?momentumStart_flags; reflexivity.

Lemma integration_step_flags s a b len :
  pinned <$> integration_step s a b len = pinned <$> points s.
Proof.
  unfold integration_step. rewrite !relax_flags, verlet_flags, pinEndpoints_flags.
  momentum_cases.
Qed.

(** [updateRopePhysics] is the integration step, and it throws on an empty
    rope only. *)
Lemma updateRopePhysics_step s a b len :
  points s <> [] ->
  updateRopePhysics s a b len =
    Some {| points := integration_step s a b len;
            segmentLen := segmentLen s;
            lastA := a;
            lastB := b;
            lastSeen := lastSeen s |}.
Proof.
  intros Hne. unfold updateRopePhysics, integration_step. cbv zeta.
  match goal with
  | |- match ?moved with [] => _ | _ :: _ => _ end = _ =>
      assert (Hfl : pinned <$> moved = pinned <$> points s);
      [| destruct moved as [|p rest] ]
  end.
  - momentum_cases.
  - apply flags_length in Hfl. destruct (points s); [congruence | discriminate].
  - reflexivity.
Qed.

(** *** What the phases do to the two ends *)

Lemma constrainPair_keeps_pinned targetLen i (pts : list RopePoint) j p :
  pts !! j = Some p -> pinned p = true ->
  constrainPair targetLen i pts !! j = Some p.
Proof.
  intros Hj Hp. unfold constrainPair.
  destruct (pts !! i) as [p1|] eqn:E1; [|exact Hj].
  destruct (pts !! (i + 1)) as [p2|] eqn:E2; [|exact Hj].
  destruct (ltb _ _); [exact Hj|].
  assert (Hfirst : forall f, pinned p1 = false -> alter f i pts !! j = Some p).
  { intros f Hp1. rewrite list_lookup_alter_ne; [exact Hj|].
    intros ->. congruence. }
  assert (Hsecond : forall f (acc : list RopePoint),
             acc !! j = Some p -> pinned p2 = false ->
             alter f (i + 1) acc !! j = Some p).
  { intros f acc Hacc Hp2. rewrite list_lookup_alter_ne; [exact Hacc|].
    intros <-. congruence. }
  destruct (pinned p1) eqn:Hp1, (pinned p2) eqn:Hp2; auto.
Qed.

Lemma relax_keeps_pinned targetLen (pts : list RopePoint) j p :
  pts !! j = Some p -> pinned p = true -> relax targetLen pts !! j = Some p.
Proof.
  intros Hj Hp. unfold relax.
  apply (for_each_invariant (fun acc => acc !! j = Some p)); [exact Hj|].
  intros i acc _ Hacc. now apply constrainPair_keeps_pinned.
Qed.

Lemma verlet_ends (pts : list RopePoint) :
  verlet pts !! 0 = pts !! 0 /\
  verlet pts !! (length pts - 1) = pts !! (length pts - 1).
Proof.
  unfold verlet.
  apply (for_each_invariant
           (fun acc => acc !! 0 = pts !! 0 /\
                       acc !! (length pts - 1) = pts !! (length pts - 1)));
    [split; reflexivity|].
  intros i acc Hi [H0 Hlast]. unfold up_range in Hi.
  apply elem_of_seq in Hi.
  rewrite !list_lookup_alter_ne by lia. now split.
Qed.

Lemma pinEndpoints_ends a b (pts : list RopePoint) :
  2 <= length pts ->
  pinEndpoints a b pts !! 0 = pinTo a <$> pts !! 0 /\
  pinEndpoints a b pts !! (length pts - 1) = pinTo b <$> pts !! (length pts - 1).
Proof.
  intros Hlen. unfold pinEndpoints. split.
  - rewrite list_lookup_alter_ne by lia. apply list_lookup_alter_eq.
  - rewrite list_lookup_alter_eq. now rewrite list_lookup_alter_ne by lia.
Qed.

Lemma ends_pinned_spec (pts : list RopePoint) :
  ends_pinned pts = true <->
  2 <= length pts /\
  (exists p, pts !! 0 = Some p /\ pinned p = true) /\
  (exists q, pts !! (length pts - 1) = Some q /\ pinned q = true).
Proof.
  unfold ends_pinned, pinned_at.
  rewrite !andb_true_iff, Nat.leb_le.
  destruct (pts !! 0) as [p|], (pts !! (length pts - 1)) as [q|];
    split; intros H; try (destruct H as [[? ?] ?]; discriminate).
  - destruct H as [[? ?] ?]. eauto 8.
  - destruct H as (? & [? [[= <-] ?]] & [? [[= <-] ?]]). auto.
  - destruct H as (? & _ & [? [? ?]]). discriminate.
  - destruct H as (? & [? [? ?]] & _). discriminate.
  - destruct H as (? & [? [? ?]] & _). discriminate.
Qed.

Lemma ends_pinned_flags (pts pts' : list RopePoint) :
  pinned <$> pts' = pinned <$> pts -> ends_pinned pts' = ends_pinned pts.
Proof.
  intros H. unfold ends_pinned.
  rewrite (flags_length _ _ H), !(flags_pinned_at _ _ _ H). reflexivity.
Qed.

Lemma pinTo_pinned e p : pinned p = true -> pinTo e p = at_rest e true.
Proof. intros H. unfold pinTo, at_rest. now rewrite H. Qed.

(** After the integration step the two ends are at rest at [a] and [b]. *)
Lemma integration_step_ends s a b len :
  ends_pinned (points s) = true ->
  integration_step s a b len !! 0 = Some (at_rest a true) /\
  integration_step s a b len !! (length (points s) - 1) = Some (at_rest b true).
Proof.
  intros Hends. unfold integration_step. cbv zeta.
  match goal with
  | |- context [pinEndpoints a b ?m] =>
      set (moved := m);
      assert (Hfl : pinned <$> moved = pinned <$> points s)
  end.
  { subst moved. momentum_cases. }
  rewrite <- (ends_pinned_flags _ _ Hfl) in Hends.
  rewrite <- (flags_length _ _ Hfl).
  apply ends_pinned_spec in Hends as (Hlen & (p & Hp & Hpp) & (q & Hq & Hqp)).
  destruct (pinEndpoints_ends a b moved Hlen) as [H0 Hl].
  rewrite Hp in H0. rewrite Hq in Hl.
  cbn [fmap option_fmap option_map] in H0, Hl.
  rewrite (pinTo_pinned _ _ Hpp) in H0. rewrite (pinTo_pinned _ _ Hqp) in Hl.
  destruct (verlet_ends (pinEndpoints a b moved)) as [V0 Vl].
  rewrite (flags_length _ _ (pinEndpoints_flags a b moved)) in Vl.
  rewrite H0 in V0. rewrite Hl in Vl.
  split; repeat apply relax_keeps_pinned; auto.
Qed.

Lemma ends_pinned_nonempty (pts : list RopePoint) : ends_pinned pts = true -> pts <> [].
Proof.
  intros H ->. discriminate.
Qed.

Lemma updateRopePhysics_pins s a b len :
  ends_pinned (points s) = true ->
  exists s',
    updateRopePhysics s a b len = Some s' /\
    ends_pinned (points s') = true /\
    points s' !! 0 = Some (at_rest a true) /\
    points s' !! (length (points s') - 1) = Some (at_rest b true).
Proof.
  intros Hends.
  rewrite (updateRopePhysics_step s a b len (ends_pinned_nonempty _ Hends)).
  eexists. split; [reflexivity|]. cbn [points].
  pose proof (integration_step_flags s a b len) as Hfl.
  rewrite (ends_pinned_flags _ _ Hfl), (flags_length _ _ Hfl).
  split; [exact Hends|]. now apply integration_step_ends.
Qed.

Lemma run_steps_cons s a b len steps :
  run_steps s ((a, b, len) :: steps) =
  updateRopePhysics s a b len ≫= fun s' => run_steps s' steps.
Proof.
  unfold run_steps. simpl.
  destruct (updateRopePhysics s a b len) as [s'|]; simpl; [reflexivity|].
  induction steps as [|[[? ?] ?] steps IH]; simpl; auto.
Qed.

Lemma run_steps_pinned s steps :
  ends_pinned (points s) = true ->
  exists s', run_steps s steps = Some s' /\ ends_pinned (points s') = true.
Proof.
  revert s. induction steps as [|[[a b] len] steps IH]; intros s Hends.
  - exists s. now split.
  - rewrite run_steps_cons.
    destruct (updateRopePhysics_pins s a b len Hends) as (s1 & -> & H1 & _).
    simpl. now apply IH.
Qed.

Lemma run_steps_snoc s steps a b len :
  run_steps s (steps ++ [(a, b, len)]) =
  run_steps s steps ≫= fun s' => updateRopePhysics s' a b len.
Proof. unfold run_steps. now rewrite foldl_app. Qed.

(** C2. Endpoint pinning: from a rope whose two ends are pinned, after every
    sequence of integration steps the first and the last point are at rest
    (current and previous position) exactly at the [a] and [b] of the last
    step; the Verlet pass and a constraint iteration leave both ends as
    they find them. *)
Theorem C2_endpoint_pinning (s : RopeState) (steps : list Step) (a b : vec2)
    (len targetLen : float) :
  ends_pinned (points s) = true ->
  (exists s',
      run_steps s (steps ++ [(a, b, len)]) = Some s' /\
      points s' !! 0 = Some (at_rest a true) /\
      points s' !! (length (points s') - 1) = Some (at_rest b true)) /\
  verlet (points s) !! 0 = points s !! 0 /\
  verlet (points s) !! (length (points s) - 1) = points s !! (length (points s) - 1) /\
  relax targetLen (points s) !! 0 = points s !! 0 /\
  relax targetLen (points s) !! (length (points s) - 1)
    = points s !! (length (points s) - 1).
Proof.
  intros Hends. split.
  - rewrite run_steps_snoc.
    destruct (run_steps_pinned s steps Hends) as (s1 & -> & H1). simpl.
    destruct (updateRopePhysics_pins s1 a b len H1) as (s' & -> & _ & H0 & Hl).
    eauto.
  - destruct (verlet_ends (points s)) as [V0 Vl].
    apply ends_pinned_spec in Hends as (_ & (p & Hp & Hpp) & (q & Hq & Hqp)).
    repeat split; auto.
    + rewrite Hp. now apply relax_keeps_pinned.
    + rewrite Hq. now apply relax_keeps_pinned.
Qed.

Lemma C2_endpoint_pinning_witness :
  exists s',
    run_steps Scenario.rope
      ([(Scenario.a, Scenario.far_b, 1000%float)] ++ [(Scenario.a, Scenario.b, 100%float)])
      = Some s' /\
    points s' !! 0 = Some (at_rest Scenario.a true) /\
    points s' !! (length (points s') - 1) = Some (at_rest Scenario.b true).
Proof.
  apply (C2_endpoint_pinning Scenario.rope
           [(Scenario.a, Scenario.far_b, 1000%float)] Scenario.a Scenario.b
           100%float 12.5%float).
  vm_compute. reflexivity.
Defined.

(** ** The structural invariant of the store *)

Lemma createRopeState_inv a b len now : RopeInv (createRopeState a b len now).
Proof. reflexivity. Qed.

Lemma RopeInv_set_lastSeen now s : RopeInv s -> RopeInv (set_lastSeen now s).
Proof. exact id. Qed.

Lemma RopeInv_nonempty s : RopeInv s -> points s <> [].
Proof. unfold RopeInv. intros H E. rewrite E in H. discriminate. Qed.

Lemma RopeInv_ends_pinned s : RopeInv s -> ends_pinned (points s) = true.
Proof.
  unfold RopeInv. intros H.
  assert (Hc : ends_pinned (points s)
               = (2 <=? length (pinned <$> points s))%nat
                 && default false ((pinned <$> points s) !! 0)
                 && default false ((pinned <$> points s) !! (length (pinned <$> points s) - 1))).
  { unfold ends_pinned, pinned_at.
    rewrite !list_lookup_fmap, length_fmap.
    destruct (points s !! 0), (points s !! (length (points s) - 1)); reflexivity. }
  rewrite Hc, H. reflexivity.
Qed.

Lemma updateRopePhysics_inv s a b len :
  RopeInv s ->
  exists s',
    updateRopePhysics s a b len = Some s' /\
    RopeInv s' /\
    points s' = integration_step s a b len.
Proof.
  intros H. rewrite (updateRopePhysics_step s a b len (RopeInv_nonempty s H)).
  eexists. split; [reflexivity|]. split; [|reflexivity].
  unfold RopeInv. cbn [points]. now rewrite integration_step_flags.
Qed.

Lemma sweep_lookup_Some now (store : gmap string RopeState) k s :
  sweep now store !! k = Some s <-> store !! k = Some s /\ stale now s = false.
Proof. unfold sweep. now rewrite map_lookup_filter_Some. Qed.

Lemma sweep_forall (P : RopeState -> Prop) now (store : gmap string RopeState) :
  map_Forall (fun _ s => P s) store -> map_Forall (fun _ s => P s) (sweep now store).
Proof.
  intros H k s Hk. apply sweep_lookup_Some in Hk as [Hk _]. exact (H k s Hk).
Qed.

Lemma alter_forall (P : RopeState -> Prop) (store : gmap string RopeState) k s' :
  P s' -> map_Forall (fun _ s => P s) store ->
  map_Forall (fun _ s => P s) (alter (fun _ => s') k store).
Proof.
  intros Hs' H j s Hj. destruct (decide (k = j)) as [->|Hne].
  - rewrite lookup_alter_eq in Hj. destruct (store !! j); simpl in Hj; congruence.
  - rewrite lookup_alter_ne in Hj by exact Hne. exact (H j s Hj).
Qed.

Lemma state_before_inv g link a b len clk :
  store_ok g -> RopeInv (state_before g link a b len clk).
Proof.
  intros Hok. unfold state_before. apply RopeInv_set_lastSeen.
  destruct (ropePhysics g !! getRopeKey link a b) as [s|] eqn:E.
  - exact (Hok _ _ E).
  - apply createRopeState_inv.
Qed.

Lemma getRopePoints_store_ok g link a b len clk :
  store_ok g -> store_ok (globals_of (getRopePoints g link a b len clk)).
Proof.
  intros Hok. unfold getRopePoints.
  destruct (gravityEnabled g); [|exact Hok]. cbn [negb].
  pose proof (state_before_inv g link a b len clk Hok) as Hst.
  unfold state_before in Hst.
  set (state := set_lastSeen _ _) in *.
  set (store1 := <[_ := state]> (ropePhysics g)).
  assert (H1 : map_Forall (fun _ s => RopeInv s) store1).
  { apply map_Forall_insert_2; assumption. }
  assert (H2 : forall store2 cleanup,
             (if (60 <? size store1)%nat && gtb (t_now clk - lastRopeCleanup g) 3000
              then (sweep (t_now clk) store1, t_now clk)
              else (store1, lastRopeCleanup g)) = (store2, cleanup) ->
             map_Forall (fun _ s => RopeInv s) store2).
  { intros store2 cleanup E. destruct (_ && _); injection E as <- <-;
      [now apply sweep_forall | exact H1]. }
  destruct (if (60 <? size store1)%nat && _ then _ else _) as [store2 cleanup] eqn:E.
  specialize (H2 _ _ eq_refl).
  destruct (resized state len).
  - apply map_Forall_insert_2; [apply createRopeState_inv | exact H2].
  - destruct (updateRopePhysics_inv state a b len Hst) as (s' & -> & Hs' & _).
    now apply alter_forall.
Qed.

Lemma toggleGravity_store_ok g : store_ok g -> store_ok (toggleGravity g).
Proof.
  intros Hok. unfold toggleGravity. cbn.
  destruct (gravityEnabled g); cbn; [apply map_Forall_empty | exact Hok].
Qed.

Lemma run_store_ok g es : store_ok g -> store_ok (run g es).
Proof.
  revert g. induction es as [|e es IH]; intros g Hok; [exact Hok|].
  apply IH. destruct e; [apply getRopePoints_store_ok | apply toggleGravity_store_ok];
    exact Hok.
Qed.

(** C10. Every rope state of the store has nine points, the first and the
    last pinned and the seven between them not: [createRopeState] makes such
    a state, [updateRopePhysics] returns one from one (same number of
    points, same flags in the same order), and so every state in the store
    is one, whatever requests and clicks on the gravity switch came
    before. *)
Theorem C10_rope_state_layout :
  pinned_layout = [true; false; false; false; false; false; false; false; true] /\
  (forall a b len now, RopeInv (createRopeState a b len now)) /\
  (forall s a b len,
      RopeInv s ->
      exists s', updateRopePhysics s a b len = Some s' /\
                 pinned <$> points s' = pinned <$> points s /\
                 RopeInv s') /\
  (forall es k s,
      ropePhysics (run initial es) !! k = Some s ->
      pinned <$> points s = pinned_layout).
Proof.
  split; [reflexivity|]. split; [exact createRopeState_inv|]. split.
  - intros s a b len H.
    destruct (updateRopePhysics_inv s a b len H) as (s' & E & Hs' & _).
    exists s'. repeat split; auto. unfold RopeInv in *. congruence.
  - intros es k s Hk.
    assert (Hok : store_ok (run initial es)).
    { apply run_store_ok. apply map_Forall_empty. }
    exact (Hok k s Hk).
Qed.

Lemma C10_rope_state_layout_witness :
  (exists s', updateRopePhysics Scenario.rope Scenario.a Scenario.b 100 = Some s' /\
              pinned <$> points s' = pinned <$> points Scenario.rope /\
              RopeInv s') /\
  pinned <$> points (Scenario.rope_of Scenario.one_rope "link_3") = pinned_layout.
Proof.
  destruct C10_rope_state_layout as (_ & _ & Hupdate & Hstore). split.
  - apply Hupdate. reflexivity.
  - apply (Hstore [GravityClick;
                   Request (Scenario.link 3) Scenario.a Scenario.b 100 (Scenario.clock 1000)]
                  "link_3").
    vm_compute. reflexivity.
Defined.

(** ** Requests to the store *)

Lemma getRopePoints_disabled g link a b len clk :
  gravityEnabled g = false -> getRopePoints g link a b len clk = Normal None g.
Proof. intros H. unfold getRopePoints. now rewrite H. Qed.

Lemma size_insert_ge (store : gmap string RopeState) k s :
  size store <= size (<[k := s]> store).
Proof. rewrite map_size_insert. destruct (store !! k); simpl; lia. Qed.

(** What a request does with gravity enabled.  [store2] is the store when
    the resize test is made: the requested key is in it with the state the
    request works on, and a sweep can only have removed other entries. *)
Lemma getRopePoints_enabled g link a b len clk :
  gravityEnabled g = true ->
  exists (store2 : gmap string RopeState) (cleanup : float),
    store2 !! getRopeKey link a b = Some (state_before g link a b len clk) /\
    (forall k, k <> getRopeKey link a b ->
               store2 !! k = None \/ store2 !! k = ropePhysics g !! k) /\
    ((60 < size (ropePhysics g))%nat ->
     gtb (t_now clk - lastRopeCleanup g) 3000 = true ->
     forall k s, k <> getRopeKey link a b -> ropePhysics g !! k = Some s ->
                 stale (t_now clk) s = true -> store2 !! k = None) /\
    getRopePoints g link a b len clk =
      if resized (state_before g link a b len clk) len then
        Normal (Some (points (createRopeState a b len (t_recreate clk))))
               (set_rope (<[getRopeKey link a b := createRopeState a b len (t_recreate clk)]> store2)
                         cleanup g)
      else
        match updateRopePhysics (state_before g link a b len clk) a b len with
        | Some state' =>
            Normal (Some (points state'))
                   (set_rope (alter (fun _ => state') (getRopeKey link a b) store2) cleanup g)
        | None => Abrupt (set_rope store2 cleanup g)
        end.
Proof.
  intros Hg. unfold getRopePoints. rewrite Hg. cbn [negb].
  fold (state_before g link a b len clk).
  set (key := getRopeKey link a b).
  set (state := state_before g link a b len clk).
  set (store1 := <[key := state]> (ropePhysics g)).
  destruct ((60 <? size store1)%nat && gtb (t_now clk - lastRopeCleanup g) 3000) eqn:Egate.
  - exists (sweep (t_now clk) store1), (t_now clk). repeat split.
    + apply sweep_lookup_Some. split; [apply lookup_insert_eq|].
      unfold stale, state, state_before. cbn [lastSeen set_lastSeen].
      apply gtb_sub_diag_8000.
    + intros k Hk. destruct (sweep (t_now clk) store1 !! k) as [s|] eqn:E; [right|now left].
      apply sweep_lookup_Some in E as [E _].
      unfold store1 in E. rewrite lookup_insert_ne in E by congruence. congruence.
    + intros _ _ k s Hk Hlook Hstale.
      destruct (sweep (t_now clk) store1 !! k) as [s1|] eqn:E; [|reflexivity].
      apply sweep_lookup_Some in E as [E Hfresh].
      unfold store1 in E. rewrite lookup_insert_ne in E by congruence. congruence.
  - exists store1, (lastRopeCleanup g). repeat split.
    + apply lookup_insert_eq.
    + intros k Hk. right. unfold store1. now rewrite lookup_insert_ne by congruence.
    + intros Hsize Hgate. exfalso.
      rewrite Hgate, andb_true_r in Egate. apply Nat.ltb_ge in Egate.
      pose proof (size_insert_ge (ropePhysics g) key state). unfold store1 in Egate. lia.
Qed.

(** A rope just created is never taken for a resized one. *)
Lemma fresh_not_resized a b len now now' :
  resized (set_lastSeen now' (createRopeState a b len now)) len = false.
Proof. unfold resized. cbn [segmentLen set_lastSeen createRopeState]. apply gtb_abs_sub_diag_20. Qed.

Lemma toggleGravity_off g :
  gravityEnabled g = true ->
  gravityEnabled (toggleGravity g) = false /\ ropePhysics (toggleGravity g) = ∅.
Proof. intros H. unfold toggleGravity. cbn. rewrite H. cbn. now split. Qed.

Lemma toggleGravity_on g :
  gravityEnabled g = false ->
  gravityEnabled (toggleGravity g) = true /\
  ropePhysics (toggleGravity g) = ropePhysics g.
Proof. intros H. unfold toggleGravity. cbn. rewrite H. cbn. now split. Qed.

(** C3. With gravity disabled [getRopePoints] returns [null] and leaves the
    whole state, the store included, as it was.  Switching gravity off
    empties the store; after switching it on again a request creates the
    rope anew with [createRopeState] and (like every first request) returns
    it after its first integration step: nothing of the store as it was
    before is in the outcome. *)
Theorem C3_gravity_disabled_and_reset (g : Globals) (link : option Link) (a b : vec2)
    (len : float) (clk : Readings) :
  (gravityEnabled g = false -> getRopePoints g link a b len clk = Normal None g) /\
  (gravityEnabled g = true ->
   let off := toggleGravity g in
   let on := toggleGravity off in
   gravityEnabled off = false /\
   ropePhysics off = ∅ /\
   getRopePoints off link a b len clk = Normal None off /\
   gravityEnabled on = true /\
   exists s' g',
     getRopePoints on link a b len clk = Normal (Some (points s')) g' /\
     points s' = integration_step (createRopeState a b len (t_create clk)) a b len /\
     ropePhysics g' !! getRopeKey link a b = Some s' /\
     forall k, k <> getRopeKey link a b -> ropePhysics g' !! k = None).
Proof.
  split; [apply getRopePoints_disabled|].
  intros Hg off on.
  destruct (toggleGravity_off g Hg) as [Hoff Hempty].
  destruct (toggleGravity_on off Hoff) as [Hon Hstore].
  fold on in Hon, Hstore. fold off in Hempty.
  split; [exact Hoff|]. split; [exact Hempty|].
  split; [now apply getRopePoints_disabled|]. split; [exact Hon|].
  destruct (getRopePoints_enabled on link a b len clk Hon)
    as (store2 & cleanup & Hkey & Hother & _ & ->).
  assert (Hbefore : state_before on link a b len clk
                    = set_lastSeen (t_now clk) (createRopeState a b len (t_create clk))).
  { unfold state_before. now rewrite Hstore, Hempty, lookup_empty. }
  rewrite Hbefore in *. rewrite fresh_not_resized.
  destruct (updateRopePhysics_inv
              (set_lastSeen (t_now clk) (createRopeState a b len (t_create clk))) a b len)
    as (s' & -> & _ & Hpts).
  { apply RopeInv_set_lastSeen, createRopeState_inv. }
  exists s'. eexists. split; [reflexivity|]. split; [exact Hpts|]. cbn [ropePhysics set_rope].
  split.
  - rewrite lookup_alter_eq, Hkey. reflexivity.
  - intros k Hk. rewrite lookup_alter_ne by congruence.
    destruct (Hother k Hk) as [E|E]; [exact E|].
    now rewrite E, Hstore, Hempty, lookup_empty.
Qed.

Lemma C3_gravity_disabled_and_reset_witness :
  getRopePoints initial (Scenario.link 3) Scenario.a Scenario.b 100 (Scenario.clock 1000)
    = Normal None initial /\
  ropePhysics (toggleGravity Scenario.one_rope) = ∅.
Proof.
  split.
  - apply (C3_gravity_disabled_and_reset initial). reflexivity.
  - apply (C3_gravity_disabled_and_reset Scenario.one_rope (Scenario.link 3)
             Scenario.a Scenario.b 100 (Scenario.clock 1000)).
    vm_compute. reflexivity.
Defined.

(** C4, as the program has it. Every request with gravity enabled that does
    not find the rope resized advances the rope of its key by exactly one
    integration step (momentum transfer, endpoint pinning, Verlet
    integration, four constraint iterations) from the state it had before
    the call; for a key seen for the first time that state is the one just
    created, which is never found resized.  A request that finds the rope
    resized stores and returns the rope created anew, with no integration
    step. *)
Theorem C4_one_step_unless_recreated (g : Globals) (link : option Link) (a b : vec2)
    (len : float) (clk : Readings) :
  gravityEnabled g = true ->
  store_ok g ->
  let key := getRopeKey link a b in
  let before := state_before g link a b len clk in
  let fresh := createRopeState a b len (t_recreate clk) in
  (ropePhysics g !! key = None -> resized before len = false) /\
  (resized before len = false ->
   exists s' g',
     getRopePoints g link a b len clk = Normal (Some (points s')) g' /\
     ropePhysics g' !! key = Some s' /\
     updateRopePhysics before a b len = Some s' /\
     points s' = integration_step before a b len) /\
  (resized before len = true ->
   exists g',
     getRopePoints g link a b len clk = Normal (Some (points fresh)) g' /\
     ropePhysics g' !! key = Some fresh).
Proof.
  intros Hg Hok key before fresh.
  destruct (getRopePoints_enabled g link a b len clk Hg)
    as (store2 & cleanup & Hkey & _ & _ & ->).
  fold before key fresh in Hkey |- *.
  split; [|split].
  - intros Hnone. unfold before, state_before. fold key. rewrite Hnone.
    apply fresh_not_resized.
  - intros ->.
    destruct (updateRopePhysics_inv before a b len (state_before_inv g link a b len clk Hok))
      as (s' & -> & _ & Hpts).
    exists s'. eexists. split; [reflexivity|]. cbn [ropePhysics set_rope].
    rewrite lookup_alter_eq, Hkey. auto.
  - intros ->. eexists. split; [reflexivity|]. cbn [ropePhysics set_rope].
    apply lookup_insert_eq.
Qed.

Lemma C4_one_step_unless_recreated_witness :
  (exists s' g',
      getRopePoints Scenario.one_rope (Scenario.link 3) Scenario.a Scenario.b 100
        (Scenario.clock 1016) = Normal (Some (points s')) g' /\
      ropePhysics g' !! "link_3" = Some s' /\
      updateRopePhysics
        (state_before Scenario.one_rope (Scenario.link 3) Scenario.a Scenario.b 100
           (Scenario.clock 1016)) Scenario.a Scenario.b 100 = Some s' /\
      points s' =
        integration_step
          (state_before Scenario.one_rope (Scenario.link 3) Scenario.a Scenario.b 100
             (Scenario.clock 1016)) Scenario.a Scenario.b 100) /\
  (exists g',
      getRopePoints Scenario.one_rope (Scenario.link 3) Scenario.a Scenario.far_b 1000
        (Scenario.clock 1016)
        = Normal (Some (points (createRopeState Scenario.a Scenario.far_b 1000 1016))) g' /\
      ropePhysics g' !! "link_3" = Some (createRopeState Scenario.a Scenario.far_b 1000 1016)).
Proof.
  assert (Hg : gravityEnabled Scenario.one_rope = true) by (vm_compute; reflexivity).
  assert (Hok : store_ok Scenario.one_rope).
  { apply (bool_decide_unpack _). vm_compute. reflexivity. }
  split.
  - apply (C4_one_step_unless_recreated Scenario.one_rope (Scenario.link 3)
             Scenario.a Scenario.b 100 (Scenario.clock 1016) Hg Hok).
    vm_compute. reflexivity.
  - apply (C4_one_step_unless_recreated Scenario.one_rope (Scenario.link 3)
             Scenario.a Scenario.far_b 1000 (Scenario.clock 1016) Hg Hok).
    vm_compute. reflexivity.
Defined.

(** C4, as stated, fails at a request that finds the rope resized: the rope
    drawn once from (0,0) to (100,0) and then requested from (0,0) to
    (1000,0) is not advanced by an integration step. *)
Lemma C4_counterexample :
  ~ advanced_one_step Scenario.one_rope (Scenario.link 3) Scenario.a Scenario.far_b 1000
      (Scenario.clock 1016).
Proof.
  intros (s' & Hlook & Hpts).
  assert (Hfresh : ropePhysics
             (globals_of (getRopePoints Scenario.one_rope (Scenario.link 3) Scenario.a
                            Scenario.far_b 1000 (Scenario.clock 1016)))
             !! getRopeKey (Scenario.link 3) Scenario.a Scenario.far_b
           = Some (createRopeState Scenario.a Scenario.far_b 1000 1016))
    by (vm_compute; reflexivity).
  rewrite Hfresh in Hlook. injection Hlook as <-.
  apply (f_equal (fun pts : list RopePoint =>
                    match pts !! 4 with
                    | Some p => PrimFloat.eqb (y p) (oldY p)
                    | None => false
                    end)) in Hpts.
  vm_compute in Hpts. clear - Hpts. discriminate Hpts.
Qed.

Lemma createRopeState_points a b len now i :
  i <= ROPE_SEGMENTS ->
  points (createRopeState a b len now) !! i
  = Some (createRopePoint a b len (ROPE_SEGMENTS + 1) i).
Proof.
  intros Hi. unfold createRopeState. cbn [points]. unfold up_range.
  rewrite list_lookup_fmap, lookup_seq_lt by (unfold ROPE_SEGMENTS in *; lia).
  reflexivity.
Qed.

(** C5. Resize recreation: when the segment rest length stored for a key
    seen before differs from [len / 8] by more than 20, the request replaces
    the entry and returns the points of a rope created anew: nine points,
    the one of index [i] at parameter [t = i / 8] on the straight line from
    [a] to [b], lowered by [min(len * 0.15, 60) * 4 * t * (1 - t)], its
    previous position equal to its current one. *)
Theorem C5_resize_recreates (g : Globals) (link : option Link) (a b : vec2)
    (len : float) (clk : Readings) (old : RopeState) :
  gravityEnabled g = true ->
  ropePhysics g !! getRopeKey link a b = Some old ->
  gtb (Math_abs (segmentLen old - len / of_nat ROPE_SEGMENTS)) 20 = true ->
  let fresh := createRopeState a b len (t_recreate clk) in
  (exists g',
      getRopePoints g link a b len clk = Normal (Some (points fresh)) g' /\
      ropePhysics g' !! getRopeKey link a b = Some fresh) /\
  length (points fresh) = ROPE_SEGMENTS + 1 /\
  (forall i, i <= ROPE_SEGMENTS ->
     exists p,
       points fresh !! i = Some p /\
       let t := (of_nat i / of_nat ROPE_SEGMENTS)%float in
       let sag := (Math_min (len * 0.15) 60 * 4 * t * (1 - t))%float in
       x p = (a.1 + (b.1 - a.1) * t)%float /\
       y p = (a.2 + (b.2 - a.2) * t + sag)%float /\
       oldX p = x p /\
       oldY p = y p).
Proof.
  intros Hg Hold Hresized fresh.
  destruct (getRopePoints_enabled g link a b len clk Hg)
    as (store2 & cleanup & _ & _ & _ & ->).
  assert (Hbefore : resized (state_before g link a b len clk) len = true).
  { unfold state_before. rewrite Hold. exact Hresized. }
  rewrite Hbefore. split; [|split].
  - eexists. split; [reflexivity|]. cbn [ropePhysics set_rope]. apply lookup_insert_eq.
  - reflexivity.
  - intros i Hi. exists (createRopePoint a b len (ROPE_SEGMENTS + 1) i).
    split; [now apply createRopeState_points|].
    repeat split; reflexivity.
Qed.

Lemma C5_resize_recreates_witness :
  exists g',
    getRopePoints Scenario.one_rope (Scenario.link 3) Scenario.a Scenario.far_b 1000
      (Scenario.clock 1016)
      = Normal (Some (points (createRopeState Scenario.a Scenario.far_b 1000 1016))) g' /\
    ropePhysics g' !! getRopeKey (Scenario.link 3) Scenario.a Scenario.far_b
      = Some (createRopeState Scenario.a Scenario.far_b 1000 1016).
Proof.
  apply (C5_resize_recreates Scenario.one_rope (Scenario.link 3) Scenario.a
           Scenario.far_b 1000 (Scenario.clock 1016)
           (Scenario.rope_of Scenario.one_rope "link_3"));
    vm_compute; reflexivity.
Defined.

(** C6. Eviction: with gravity enabled, more than 60 entries in the store
    and more than 3000 ms since the last sweep, a request removes every
    entry of another key that was last seen more than 8000 ms before it. *)
Theorem C6_stale_entry_evicted (g : Globals) (link : option Link) (a b : vec2)
    (len : float) (clk : Readings) (k : string) (s : RopeState) :
  gravityEnabled g = true ->
  (60 < size (ropePhysics g))%nat ->
  gtb (t_now clk - lastRopeCleanup g) 3000 = true ->
  ropePhysics g !! k = Some s ->
  k <> getRopeKey link a b ->
  gtb (t_now clk - lastSeen s) 8000 = true ->
  ropePhysics (globals_of (getRopePoints g link a b len clk)) !! k = None.
Proof.
  intros Hg Hsize Hgate Hk Hne Hstale.
  destruct (getRopePoints_enabled g link a b len clk Hg)
    as (store2 & cleanup & _ & _ & Hswept & ->).
  specialize (Hswept Hsize Hgate k s Hne Hk Hstale).
  destruct (resized _ _); [|destruct (updateRopePhysics _ _ _ _)];
    cbn [globals_of ropePhysics set_rope].
  - now rewrite lookup_insert_ne by congruence.
  - now rewrite lookup_alter_ne by congruence.
  - exact Hswept.
Qed.

(** 61 connectors drawn at time 1000; connector 0 is drawn again at time
    9001 (1000 + 8001): connector 60, not drawn since, is gone. *)
Lemma C6_stale_entry_evicted_witness :
  size (ropePhysics Scenario.sixty_one) = 61 /\
  is_Some (ropePhysics Scenario.sixty_one !! "link_60") /\
  ropePhysics
    (globals_of (getRopePoints Scenario.sixty_one (Scenario.link 0) Scenario.a Scenario.b
                   100 (Scenario.clock 9001))) !! "link_60" = None.
Proof.
  split; [vm_compute; reflexivity|].
  split; [vm_compute; eauto|].
  apply (C6_stale_entry_evicted Scenario.sixty_one (Scenario.link 0) Scenario.a Scenario.b
           100 (Scenario.clock 9001) "link_60"
           (Scenario.rope_of Scenario.sixty_one "link_60")).
  - vm_compute; reflexivity.
  - vm_compute. lia.
  - vm_compute; reflexivity.
  - vm_compute; reflexivity.
  - vm_compute. discriminate.
  - vm_compute; reflexivity.
Defined.

(** ** The curve sampler at the ends of the curve *)

(** In Bezier mode the sampler gives [a] at 0 and [b] at 1, and in rope mode
    it gives the first point at 0, on the rope of the scenario. *)
Lemma getSmartPoint_ends_that_hold :
  getSmartPoint 0 Scenario.a Scenario.b 40 None = Some Scenario.a /\
  getSmartPoint 1 Scenario.a Scenario.b 40 None = Some Scenario.b /\
  getSmartPoint 0 Scenario.a Scenario.b 40 (Some (points Scenario.rope)) = Some Scenario.a.
Proof. repeat split; vm_compute; reflexivity. Qed.

(** C1, where the program departs from it: a rope sampled at [t] = 1.  The
    segment index [Math.floor(t * 8)] of a rope of nine points is 8, from
    which [localT] is computed as 0 before the index is clamped to 7: the
    sample is taken at the start of the last segment, at the point of index
    7.  On the rope from [a] = (0,0) to [b] = (100,0), whose first point is
    [a] and whose last point is [b], it is (87.5, 6.5625) and not [b]. *)
Theorem C1_rope_sample_at_one_is_not_b :
  (forall a b cp p0 p1 p2 p3 p4 p5 p6 p7 p8,
      getSmartPoint 1 a b cp (Some [p0; p1; p2; p3; p4; p5; p6; p7; p8])
      = Some (x p7 + (x p8 - x p7) * 0, y p7 + (y p8 - y p7) * 0)%float) /\
  points Scenario.rope !! 0 = Some (at_rest Scenario.a true) /\
  points Scenario.rope !! 8 = Some (at_rest Scenario.b true) /\
  length (points Scenario.rope) = 9 /\
  getSmartPoint 1 Scenario.a Scenario.b 40 (Some (points Scenario.rope))
    = Some (87.5, 6.5625)%float /\
  (x <$> points Scenario.rope !! 7, y <$> points Scenario.rope !! 7)
    = (Some 87.5, Some 6.5625)%float.
Proof. split; [intros; vm_compute; reflexivity|]. repeat split; vm_compute; reflexivity. Qed.

(** With two points the sample at 1 is even the first point. *)
Lemma getSmartPoint_two_points_at_one :
  getSmartPoint 1 Scenario.a Scenario.b 40
    (Some [at_rest Scenario.a true; at_rest Scenario.b true]) = Some Scenario.a.
Proof. vm_compute. reflexivity. Qed.

(** ** The animate-link predicate *)

(** C7. In mode [selected] with node 5 the only selected node, a connector
    from node 5 to node 9 is animated and one from node 3 to node 9 is not;
    a connector without link object is animated; in modes [full] and
    [static] every connector is. *)
Theorem C7_shouldAnimateLink (g : Globals) (h : Host) (link : option Link) (id : option Z) :
  shouldAnimateLink (set_animationMode "selected" g) Scenario.node_5_selected
    (Some {| link_id := id; origin_id := 5; target_id := 9 |}) = true /\
  shouldAnimateLink (set_animationMode "selected" g) Scenario.node_5_selected
    (Some {| link_id := id; origin_id := 3; target_id := 9 |}) = false /\
  shouldAnimateLink (set_animationMode "selected" g) h None = true /\
  shouldAnimateLink (set_animationMode "full" g) h link = true /\
  shouldAnimateLink (set_animationMode "static" g) h link = true.
Proof. repeat split; reflexivity. Qed.

(** ** The example scenario *)

(** C9. [a] = (0,0), [b] = (100,0), length 100, gravity enabled, a key not
    in the store.  The rope created has nine points whose heights are
    [15 * 4 * t * (1 - t)], 15 at the middle point and less elsewhere; the
    points the request returns, one integration step later, have the middle
    point strictly lower on the screen (its [y] above 15) and the two ends
    exactly at (0,0) and (100,0). *)
Theorem C9_example_scenario (g : Globals) (link : option Link) (clk : Readings) :
  gravityEnabled g = true ->
  ropePhysics g !! getRopeKey link Scenario.a Scenario.b = None ->
  let created := createRopeState Scenario.a Scenario.b 100 (t_create clk) in
  Math_min (100 * 0.15) 60 = 15%float /\
  y <$> points created
    = (fun i => let t := (of_nat i / 8)%float in (15 * 4 * t * (1 - t))%float) <$> seq 0 9 /\
  y <$> points created = [0; 6.5625; 11.25; 14.0625; 15; 14.0625; 11.25; 6.5625; 0]%float /\
  exists pts g' mid,
    getRopePoints g link Scenario.a Scenario.b 100 clk = Normal (Some pts) g' /\
    length pts = 9 /\
    pts !! 4 = Some mid /\
    PrimFloat.ltb 15 (y mid) = true /\
    pts !! 0 = Some (at_rest (0, 0)%float true) /\
    pts !! 8 = Some (at_rest (100, 0)%float true).
Proof.
  intros Hg Hnone created.
  split; [vm_compute; reflexivity|].
  split; [vm_compute; reflexivity|].
  split; [vm_compute; reflexivity|].
  destruct (getRopePoints_enabled g link Scenario.a Scenario.b 100 clk Hg)
    as (store2 & cleanup & _ & _ & _ & ->).
  unfold state_before. rewrite Hnone, fresh_not_resized.
  destruct (updateRopePhysics _ _ _ _) as [s'|] eqn:E; vm_compute in E; [|discriminate E].
  injection E as <-. cbn [points].
  eexists. eexists. eexists.
  split; [reflexivity|].
  repeat split; vm_compute; reflexivity.
Qed.

Lemma C9_example_scenario_witness :
  exists pts g' mid,
    getRopePoints (toggleGravity initial) (Scenario.link 3) Scenario.a Scenario.b 100
      (Scenario.clock 1000) = Normal (Some pts) g' /\
    length pts = 9 /\
    pts !! 4 = Some mid /\
    PrimFloat.ltb 15 (y mid) = true /\
    pts !! 0 = Some (at_rest (0, 0)%float true) /\
    pts !! 8 = Some (at_rest (100, 0)%float true).
Proof.
  apply (C9_example_scenario (toggleGravity initial) (Scenario.link 3)
           (Scenario.clock 1000)); vm_compute; reflexivity.
Defined.

(** ** The dispatch of a draw request *)

(** On a store of well-formed ropes a request with gravity enabled returns
    the points of the rope it then holds for the key. *)
Lemma getRopePoints_returns (g : Globals) (link : option Link) (a b : vec2)
    (len : float) (clk : Readings) :
  gravityEnabled g = true ->
  store_ok g ->
  exists pts s g',
    getRopePoints g link a b len clk = Normal (Some pts) g' /\
    ropePhysics g' !! getRopeKey link a b = Some s /\
    points s = pts.
Proof.
  intros Hg Hok.
  destruct (getRopePoints_enabled g link a b len clk Hg)
    as (store2 & cleanup & Hkey & _ & _ & Hcall).
  rewrite Hcall. clear Hcall.
  destruct (resized (state_before g link a b len clk) len).
  - eexists. exists (createRopeState a b len (t_recreate clk)). eexists.
    split; [reflexivity|]. cbn [ropePhysics set_rope].
    rewrite lookup_insert_eq. now split.
  - destruct (updateRopePhysics_inv _ a b len (state_before_inv g link a b len clk Hok))
      as (s' & Hup & Hinv & _).
    rewrite Hup.
    eexists. exists s'. eexists.
    split; [reflexivity|]. cbn [ropePhysics set_rope].
    rewrite lookup_alter_eq, Hkey. now split.
Qed.


(** A request changes nothing of the settings. *)
Lemma getRopePoints_settings g link a b len clk :
  let g' := globals_of (getRopePoints g link a b len clk) in
  g' = set_rope (ropePhysics g') (lastRopeCleanup g') g.
Proof.
  cbv zeta. destruct (gravityEnabled g) eqn:Hg.
  - destruct (getRopePoints_enabled g link a b len clk Hg)
      as (store2 & cleanup & _ & _ & _ & ->).
    destruct (resized _ _); [|destruct (updateRopePhysics _ _ _ _)]; reflexivity.
  - rewrite (getRopePoints_disabled g link a b len clk Hg). now destruct g.
Qed.

(** A draw request that gets its rope points does three things in order:
    the GIF update, the effect, the connector. *)
Lemma patchedRenderLink_returned g h ctx a b link color clk perf_now va vb rp g1 :
  entries a = Some va -> entries b = Some vb ->
  gravityEnabled g && negb (spreadable a && spreadable b) = false ->
  getRopePoints g link va vb (Math_hypot (vb.1 - va.1) (vb.2 - va.2)) clk = Normal rp g1 ->
  patchedRenderLink g h ctx a b link color clk perf_now
  = Returned (gif_part g h link
              ++ effect_part g h ctx a b link (Math_hypot (vb.1 - va.1) (vb.2 - va.2)) rp
                   perf_now
              ++ connector_part g ctx color rp) g1.
Proof.
  intros Ea Eb Hspread Hcall. unfold patchedRenderLink.
  rewrite Ea, Eb, Hspread, Hcall.
  pose proof (getRopePoints_settings g link va vb
                (Math_hypot (vb.1 - va.1) (vb.2 - va.2)) clk) as Hset.
  rewrite Hcall in Hset. cbn [globals_of] in Hset.
  assert (Hg : gravityEnabled g1 = gravityEnabled g) by now rewrite Hset.
  assert (He : currentEffect g1 = currentEffect g) by now rewrite Hset.
  assert (Hgif : gifEnabled g1 = gifEnabled g) by now rewrite Hset.
  assert (Hurl : gifUrl g1 = gifUrl g) by now rewrite Hset.
  assert (Hanim : shouldAnimateLink g1 h link = shouldAnimateLink g h link)
    by now rewrite Hset.
  assert (Htime : getTimeForEffect g1 perf_now = getTimeForEffect g perf_now)
    by now rewrite Hset.
  unfold gif_part, effect_part, connector_part, stroke_of.
  rewrite Hg, He, Hgif, Hurl, Hanim, Htime.
  destruct (if gravityEnabled g && ctx then rp else None); [reflexivity|].
  destruct (currentEffect g); [now rewrite app_nil_r|].
  destruct (negb (gravityEnabled g)); [reflexivity|]. now rewrite !app_nil_r.
Qed.

(** A draw request throws before it draws, or returns as above. *)
Lemma patchedRenderLink_cases g h ctx a b link color clk perf_now :
  patchedRenderLink g h ctx a b link color clk perf_now = Threw \/
  exists va vb rp g1,
    entries a = Some va /\ entries b = Some vb /\
    getRopePoints g link va vb (Math_hypot (vb.1 - va.1) (vb.2 - va.2)) clk = Normal rp g1 /\
    patchedRenderLink g h ctx a b link color clk perf_now
    = Returned (gif_part g h link
                ++ effect_part g h ctx a b link (Math_hypot (vb.1 - va.1) (vb.2 - va.2)) rp
                     perf_now
                ++ connector_part g ctx color rp) g1.
Proof.
  destruct (entries b) as [vb|] eqn:Eb;
    [|left; unfold patchedRenderLink; now rewrite Eb].
  destruct (entries a) as [va|] eqn:Ea;
    [|left; unfold patchedRenderLink; now rewrite Eb, Ea].
  destruct (gravityEnabled g && negb (spreadable a && spreadable b)) eqn:Hspread;
    [left; unfold patchedRenderLink; now rewrite Eb, Ea, Hspread|].
  destruct (getRopePoints g link va vb (Math_hypot (vb.1 - va.1) (vb.2 - va.2)) clk)
    as [rp g1|g1] eqn:Hcall;
    [|left; unfold patchedRenderLink; now rewrite Eb, Ea, Hspread, Hcall].
  right. exists va, vb, rp, g1. repeat split; auto.
  now apply patchedRenderLink_returned.
Qed.

Lemma gif_part_events g h link :
  existsb is_OriginalRenderLink (gif_part g h link) = false /\
  existsb is_EffectDraw (gif_part g h link) = false /\
  existsb is_RopeDraw (gif_part g h link) = false.
Proof. unfold gif_part. now destruct (_ && _ && _). Qed.

Lemma effect_part_events g h ctx a b link len rp perf_now :
  existsb is_OriginalRenderLink (effect_part g h ctx a b link len rp perf_now) = false /\
  existsb is_RopeDraw (effect_part g h ctx a b link len rp perf_now) = false.
Proof.
  unfold effect_part. destruct (currentEffect g); [|now split].
  now destruct (_ && _ && _ && _ && _).
Qed.

Lemma connector_part_original g ctx color rp :
  existsb is_OriginalRenderLink (connector_part g ctx color rp) = true ->
  currentEffect g = None /\ gravityEnabled g = false.
Proof.
  unfold connector_part.
  destruct (if gravityEnabled g && ctx then rp else None); [discriminate|].
  destruct (currentEffect g); [discriminate|].
  destruct (gravityEnabled g); [discriminate|]. now split.
Qed.

Lemma connector_part_effect g ctx color rp :
  existsb is_EffectDraw (connector_part g ctx color rp) = false.
Proof.
  unfold connector_part.
  destruct (if gravityEnabled g && ctx then rp else None); [reflexivity|].
  destruct (currentEffect g); [reflexivity|]. now destruct (negb (gravityEnabled g)).
Qed.

(** ** Draw requests with malformed endpoints *)






(** A [null] endpoint makes the request throw, whatever the settings: the
    length of the connector is computed from the entries of [a] and [b]
    before [Array.isArray] is asked. *)
Lemma patchedRenderLink_null_endpoint_throws g h ctx b link color clk perf_now :
  patchedRenderLink g h ctx JNullish b link color clk perf_now = Threw.
Proof. unfold patchedRenderLink. now destruct (entries b). Qed.

(** * Further properties of the program *)

(** ** The store across a request *)

Lemma sweep_lookup now (store : gmap string RopeState) k :
  sweep now store !! k =
  match store !! k with
  | Some s => if stale now s then None else Some s
  | None => None
  end.
Proof.
  destruct (store !! k) as [s|] eqn:E.
  - destruct (stale now s) eqn:Es.
    + destruct (sweep now store !! k) as [s1|] eqn:E1; [|reflexivity].
      apply sweep_lookup_Some in E1 as [E1 Hs1]. congruence.
    + apply sweep_lookup_Some. now split.
  - destruct (sweep now store !! k) as [s1|] eqn:E1; [|reflexivity].
    apply sweep_lookup_Some in E1 as [E1 _]. congruence.
Qed.

(** The rope of another key after a request. *)
Lemma getRopePoints_other_key (g : Globals) (link : option Link) (a b : vec2)
    (len : float) (clk : Readings) (k : string) :
  gravityEnabled g = true ->
  k <> getRopeKey link a b ->
  ropePhysics (globals_of (getRopePoints g link a b len clk)) !! k =
    match ropePhysics g !! k with
    | Some s =>
        if (60 <? size (<[getRopeKey link a b := state_before g link a b len clk]>
                          (ropePhysics g)))%nat
           && gtb (t_now clk - lastRopeCleanup g) 3000 && stale (t_now clk) s
        then None else Some s
    | None => None
    end.
Proof.
  intros Hg Hk. unfold getRopePoints. rewrite Hg. cbn [negb].
  fold (state_before g link a b len clk).
  set (key := getRopeKey link a b) in *.
  set (state := state_before g link a b len clk) in *.
  assert (Hother : forall (m : gmap string RopeState) s',
             (<[key := s']> m) !! k = m !! k /\ alter (fun _ => s') key m !! k = m !! k).
  { intros m s'. now rewrite lookup_insert_ne, lookup_alter_ne by congruence. }
  destruct ((60 <? size (<[key := state]> (ropePhysics g)))%nat
            && gtb (t_now clk - lastRopeCleanup g) 3000); cbn [andb];
    (destruct (resized state len); [|destruct (updateRopePhysics state a b len)]);
    cbn [globals_of ropePhysics lastRopeCleanup set_rope];
    rewrite ?(proj1 (Hother _ _)), ?(proj2 (Hother _ _)), ?sweep_lookup,
            ?(proj1 (Hother _ _));
    destruct (ropePhysics g !! k); reflexivity.
Qed.

(** X1. A request with gravity enabled never changes the rope of another
    key: it leaves the entry as it is, or, when the sweep runs (more than 60
    entries once the requested key is in, more than 3000 ms since the last
    sweep), removes it if it was last seen more than 8000 ms ago.  The time
    of the last sweep is updated exactly when the sweep runs. *)
Theorem request_frames_other_ropes (g : Globals) (link : option Link) (a b : vec2)
    (len : float) (clk : Readings) (k : string) :
  gravityEnabled g = true ->
  k <> getRopeKey link a b ->
  let g' := globals_of (getRopePoints g link a b len clk) in
  let sweeps :=
    (60 <? size (<[getRopeKey link a b := state_before g link a b len clk]> (ropePhysics g)))%nat
    && gtb (t_now clk - lastRopeCleanup g) 3000 in
  ropePhysics g' !! k =
    match ropePhysics g !! k with
    | Some s => if sweeps && stale (t_now clk) s then None else Some s
    | None => None
    end /\
  lastRopeCleanup g' = (if sweeps then t_now clk else lastRopeCleanup g).
Proof.
  intros Hg Hk g' sweeps. split.
  - apply getRopePoints_other_key; assumption.
  - subst g'. unfold getRopePoints. rewrite Hg. cbn [negb].
    fold (state_before g link a b len clk). fold sweeps.
    destruct sweeps;
      (destruct (resized _ len); [|destruct (updateRopePhysics _ a b len)]);
      reflexivity.
Qed.

Lemma request_frames_other_ropes_witness :
  ropePhysics
    (globals_of (getRopePoints Scenario.sixty_one (Scenario.link 0) Scenario.a Scenario.b
                   100 (Scenario.clock 5000))) !! "link_60"
  = ropePhysics Scenario.sixty_one !! "link_60".
Proof.
  assert (Hg : gravityEnabled Scenario.sixty_one = true) by (vm_compute; reflexivity).
  assert (Hk : "link_60" <> getRopeKey (Scenario.link 0) Scenario.a Scenario.b)
    by (vm_compute; discriminate).
  pose proof (request_frames_other_ropes Scenario.sixty_one (Scenario.link 0)
                Scenario.a Scenario.b 100 (Scenario.clock 5000) "link_60" Hg Hk) as H.
  cbv zeta in H. destruct H as [H _]. rewrite H. vm_compute. reflexivity.
Defined.

(** X2. On a store of well-formed ropes a request with gravity enabled does
    not throw; the points it returns are those of the rope the store holds
    for the requested key afterwards, which is well-formed again: a request
    never evicts the rope it is made for. *)
Theorem request_returns_stored_rope (g : Globals) (link : option Link) (a b : vec2)
    (len : float) (clk : Readings) :
  gravityEnabled g = true ->
  store_ok g ->
  exists pts s g',
    getRopePoints g link a b len clk = Normal (Some pts) g' /\
    ropePhysics g' !! getRopeKey link a b = Some s /\
    points s = pts /\
    RopeInv s /\
    store_ok g'.
Proof.
  intros Hg Hok.
  pose proof (getRopePoints_store_ok g link a b len clk Hok) as Hok'.
  destruct (getRopePoints_returns g link a b len clk Hg Hok)
    as (pts & s & g' & Hcall & Hlook & Hpts).
  rewrite Hcall in Hok'. cbn [globals_of] in Hok'.
  exists pts, s, g'. repeat split; auto. exact (Hok' _ _ Hlook).
Qed.

Lemma request_returns_stored_rope_witness :
  exists pts s g',
    getRopePoints Scenario.one_rope (Scenario.link 3) Scenario.a Scenario.b 100
      (Scenario.clock 1016) = Normal (Some pts) g' /\
    ropePhysics g' !! getRopeKey (Scenario.link 3) Scenario.a Scenario.b = Some s /\
    points s = pts /\
    RopeInv s /\
    store_ok g'.
Proof.
  apply (request_returns_stored_rope Scenario.one_rope (Scenario.link 3) Scenario.a
           Scenario.b 100 (Scenario.clock 1016)).
  - vm_compute; reflexivity.
  - apply (bool_decide_unpack _). vm_compute. reflexivity.
Defined.

(** X3. In every state reached from the initial one by requests and clicks on
    the gravity switch, a request returns: no [TypeError] escapes
    [getRopePoints]. *)
Theorem request_never_throws (es : list Event) (link : option Link) (a b : vec2)
    (len : float) (clk : Readings) :
  exists v g', getRopePoints (run initial es) link a b len clk = Normal v g'.
Proof.
  assert (Hok : store_ok (run initial es)) by (apply run_store_ok, map_Forall_empty).
  destruct (gravityEnabled (run initial es)) eqn:Hg.
  - destruct (getRopePoints_returns _ link a b len clk Hg Hok)
      as (pts & s & g' & -> & _).
    eauto.
  - rewrite (getRopePoints_disabled _ link a b len clk Hg). eauto.
Qed.

Lemma getRopePoints_gravityEnabled g link a b len clk :
  gravityEnabled (globals_of (getRopePoints g link a b len clk)) = gravityEnabled g.
Proof.
  destruct (gravityEnabled g) eqn:Hg.
  - destruct (getRopePoints_enabled g link a b len clk Hg)
      as (store2 & cleanup & _ & _ & _ & ->).
    destruct (resized _ _); [|destruct (updateRopePhysics _ _ _ _)]; exact Hg.
  - now rewrite (getRopePoints_disabled g link a b len clk Hg).
Qed.

Lemma step_event_off_empty g e :
  (gravityEnabled g = false -> ropePhysics g = ∅) ->
  gravityEnabled (step_event g e) = false -> ropePhysics (step_event g e) = ∅.
Proof.
  intros Hinv. destruct e as [link a b len clk|]; cbn [step_event].
  - rewrite getRopePoints_gravityEnabled. intros Hg.
    rewrite (getRopePoints_disabled g link a b len clk Hg). cbn [globals_of]. auto.
  - destruct (gravityEnabled g) eqn:Hg.
    + intros _. now apply toggleGravity_off.
    + destruct (toggleGravity_on g Hg) as [Hon _]. congruence.
Qed.

Lemma run_off_empty g es :
  (gravityEnabled g = false -> ropePhysics g = ∅) ->
  gravityEnabled (run g es) = false -> ropePhysics (run g es) = ∅.
Proof.
  revert g. induction es as [|e es IH]; intros g Hinv; [exact Hinv|].
  apply IH. now apply step_event_off_empty.
Qed.

(** X4. While gravity is disabled the store is empty: in every state reached
    from the initial one by requests and clicks on the gravity switch, no
    rope is kept with gravity off. *)
Theorem gravity_off_store_empty (es : list Event) :
  gravityEnabled (run initial es) = false -> ropePhysics (run initial es) = ∅.
Proof. apply run_off_empty. reflexivity. Qed.

Lemma gravity_off_store_empty_witness :
  ropePhysics
    (run initial
       [GravityClick;
        Request (Scenario.link 3) Scenario.a Scenario.b 100 (Scenario.clock 1000);
        GravityClick;
        Request (Scenario.link 3) Scenario.a Scenario.b 100 (Scenario.clock 1016)]) = ∅.
Proof.
  apply (gravity_off_store_empty
           [GravityClick;
            Request (Scenario.link 3) Scenario.a Scenario.b 100 (Scenario.clock 1000);
            GravityClick;
            Request (Scenario.link 3) Scenario.a Scenario.b 100 (Scenario.clock 1016)]).
  vm_compute. reflexivity.
Defined.

(** ** The integration step, phase by phase *)

Lemma fmap_alter_proj {B : Type} (proj : RopePoint -> B) (f : RopePoint -> RopePoint) i
    (pts : list RopePoint) :
  (forall p, proj (f p) = proj p) -> proj <$> alter f i pts = proj <$> pts.
Proof.
  intros Hf. revert i.
  induction pts as [|p pts IH]; intros [|i]; simpl; try reflexivity.
  - now rewrite Hf.
  - f_equal. apply IH.
Qed.

Lemma for_each_alter_proj {B : Type} (proj : RopePoint -> B)
    (f : nat -> RopePoint -> RopePoint) indices (pts : list RopePoint) :
  (forall i p, proj (f i p) = proj p) ->
  proj <$> for_each indices (fun i acc => alter (f i) i acc) pts = proj <$> pts.
Proof.
  intros Hf.
  apply (for_each_invariant (fun acc => proj <$> acc = proj <$> pts)); [reflexivity|].
  intros i acc _ Hacc. rewrite fmap_alter_proj; [exact Hacc | apply Hf].
Qed.

Lemma for_each_alter_notin (f : nat -> RopePoint -> RopePoint) indices
    (pts : list RopePoint) j :
  j ∉ indices ->
  for_each indices (fun i acc => alter (f i) i acc) pts !! j = pts !! j.
Proof.
  intros Hj.
  apply (for_each_invariant (fun acc => acc !! j = pts !! j)); [reflexivity|].
  intros i acc Hi Hacc. rewrite list_lookup_alter_ne; [exact Hacc|].
  intros ->. contradiction.
Qed.

Lemma for_each_alter_in (f : nat -> RopePoint -> RopePoint) indices
    (pts : list RopePoint) j :
  NoDup indices -> j ∈ indices ->
  for_each indices (fun i acc => alter (f i) i acc) pts !! j = f j <$> pts !! j.
Proof.
  unfold for_each. revert pts.
  induction indices as [|i indices IH]; intros pts Hnd Hj; [now apply elem_of_nil in Hj|].
  apply NoDup_cons in Hnd as [Hi Hnd]. simpl.
  apply elem_of_cons in Hj as [->|Hj].
  - change (foldl (fun acc i0 => alter (f i0) i0 acc) (alter (f i) i pts) indices)
      with (for_each indices (fun i0 acc => alter (f i0) i0 acc) (alter (f i) i pts)).
    rewrite for_each_alter_notin by exact Hi. apply list_lookup_alter_eq.
  - rewrite IH by assumption.
    rewrite list_lookup_alter_ne; [reflexivity|]. intros ->. contradiction.
Qed.

Lemma momentumStart_outside dx dy (pts : list RopePoint) i :
  i = 0 \/ length pts / 2 <= i -> momentumStart dx dy pts !! i = pts !! i.
Proof.
  intros Hi. unfold momentumStart.
  apply (for_each_alter_notin (fun i => sub_old _ _)).
  unfold up_range. rewrite elem_of_seq. lia.
Qed.

Lemma momentumEnd_outside dx dy (pts : list RopePoint) i :
  i < length pts - length pts / 2 \/ length pts - 1 <= i ->
  momentumEnd dx dy pts !! i = pts !! i.
Proof.
  intros Hi. unfold momentumEnd.
  apply (for_each_alter_notin (fun i => sub_old _ _)).
  unfold down_range. rewrite list_elem_of_fmap.
  setoid_rewrite elem_of_reverse. setoid_rewrite elem_of_seqZ.
  assert (length pts / 2 <= length pts) by (apply Nat.Div0.div_le_upper_bound; lia).
  intros (z & -> & Hz). lia.
Qed.

Lemma momentumStart_position dx dy pts :
  position <$> momentumStart dx dy pts = position <$> pts.
Proof.
  unfold momentumStart. apply (for_each_alter_proj position (fun i => sub_old _ _)).
  reflexivity.
Qed.

Lemma momentumEnd_position dx dy pts :
  position <$> momentumEnd dx dy pts = position <$> pts.
Proof.
  unfold momentumEnd. apply (for_each_alter_proj position (fun i => sub_old _ _)).
  reflexivity.
Qed.

(** X5. Momentum transfer changes previous positions only, never a current
    position, and the two transfers have separate footprints: the one from
    the start leaves the first point and all points from index [n / 2] on as
    they are, the one from the end leaves the points below index
    [n - n / 2] and the last point as they are.  So no point takes momentum
    from both ends, and with nine points the middle one takes none. *)
Theorem momentum_transfer_footprint (dxs dys dxe dye : float) (pts : list RopePoint)
    (i : nat) :
  position <$> momentumStart dxs dys pts = position <$> pts /\
  position <$> momentumEnd dxe dye pts = position <$> pts /\
  momentumStart dxs dys pts !! 0 = pts !! 0 /\
  drop (length pts / 2) (momentumStart dxs dys pts) = drop (length pts / 2) pts /\
  take (length pts - length pts / 2) (momentumEnd dxe dye pts)
    = take (length pts - length pts / 2) pts /\
  momentumEnd dxe dye pts !! (length pts - 1) = pts !! (length pts - 1) /\
  (momentumEnd dxe dye (momentumStart dxs dys pts) !! i = momentumStart dxs dys pts !! i
   \/ momentumStart dxs dys pts !! i = pts !! i).
Proof.
  split; [apply momentumStart_position|].
  split; [apply momentumEnd_position|].
  split; [apply momentumStart_outside; now left|].
  split.
  { apply list_eq. intros j. rewrite !lookup_drop.
    apply momentumStart_outside. right. lia. }
  split.
  { apply list_eq. intros j.
    destruct (decide (j < length pts - length pts / 2)) as [Hj|Hj].
    - rewrite !lookup_take_lt by exact Hj. apply momentumEnd_outside. now left.
    - rewrite !lookup_take_ge by lia. reflexivity. }
  split; [apply momentumEnd_outside; now right|].
  assert (Hlen : length (momentumStart dxs dys pts) = length pts).
  { apply flags_length, momentumStart_flags. }
  assert (length pts / 2 <= length pts) by (apply Nat.Div0.div_le_upper_bound; lia).
  assert (length pts / 2 + length pts / 2 <= length pts).
  { pose proof (Nat.div_mod_eq (length pts) 2). lia. }
  destruct (decide (i < length pts - length pts / 2)) as [Hi|Hi].
  - left. apply momentumEnd_outside. rewrite Hlen. now left.
  - right. apply momentumStart_outside. right. lia.
Qed.

Section UnmovedEnds.
Local Open Scope float_scope.

Lemma sub_diag_value (v : float) : v - v = 0 \/ v - v = nan.
Proof.
  destruct (sub_diag_cases v) as [H|H]; [left|right];
    apply Prim2SF_inj; rewrite H; vm_compute; reflexivity.
Qed.

(** An endpoint that is where it was at the last step has not moved by more
    than 0.1. *)
Lemma unmoved_not_gtb (v w : float) : gtb (Math_hypot (v - v) (w - w)) 0.1 = false.
Proof.
  destruct (sub_diag_value v) as [-> | ->], (sub_diag_value w) as [-> | ->];
    vm_compute; reflexivity.
Qed.

End UnmovedEnds.

Lemma alter_fixed (f : RopePoint -> RopePoint) i (pts : list RopePoint) p :
  pts !! i = Some p -> f p = p -> alter f i pts = pts.
Proof.
  intros Hi Hf. apply list_eq. intros j. destruct (decide (i = j)) as [<-|Hne].
  - rewrite list_lookup_alter_eq, Hi. simpl. now rewrite Hf.
  - now apply list_lookup_alter_ne.
Qed.

Lemma pinEndpoints_at_rest a b (pts : list RopePoint) :
  pts !! 0 = Some (at_rest a true) ->
  pts !! (length pts - 1) = Some (at_rest b true) ->
  pinEndpoints a b pts = pts.
Proof.
  intros H0 Hl. unfold pinEndpoints.
  rewrite (alter_fixed (pinTo a) 0 pts (at_rest a true) H0 eq_refl).
  exact (alter_fixed (pinTo b) _ pts (at_rest b true) Hl eq_refl).
Qed.

Lemma integration_step_unmoved s len :
  integration_step s (lastA s) (lastB s) len =
  Nat.iter ROPE_ITERATIONS (relax (len / of_nat (length (points s) - 1))%float)
    (verlet (pinEndpoints (lastA s) (lastB s) (points s))).
Proof.
  unfold integration_step. rewrite !unmoved_not_gtb. cbv zeta.
  rewrite (flags_length _ _ (verlet_flags _)), (flags_length _ _ (pinEndpoints_flags _ _ _)).
  reflexivity.
Qed.

(** X6. A step with both endpoints where the last step left them transfers
    no momentum: the new points are the old ones pinned, integrated and
    relaxed four times.  So after a step to [a], [b] from a rope with pinned
    ends, a second step to the same [a], [b] is the Verlet pass and four
    constraint iterations on the points the first step returned. *)
Theorem unmoved_endpoints_no_momentum (s : RopeState) (a b : vec2) (len len2 : float) :
  ends_pinned (points s) = true ->
  (exists s',
      updateRopePhysics s (lastA s) (lastB s) len = Some s' /\
      points s' =
        Nat.iter ROPE_ITERATIONS (relax (len / of_nat (length (points s) - 1))%float)
          (verlet (pinEndpoints (lastA s) (lastB s) (points s)))) /\
  (exists s1 s2,
      updateRopePhysics s a b len = Some s1 /\
      updateRopePhysics s1 a b len2 = Some s2 /\
      points s2 =
        Nat.iter ROPE_ITERATIONS (relax (len2 / of_nat (length (points s) - 1))%float)
          (verlet (points s1))).
Proof.
  intros Hends. split.
  - rewrite (updateRopePhysics_step s _ _ len (ends_pinned_nonempty _ Hends)).
    eexists. split; [reflexivity|]. cbn [points]. apply integration_step_unmoved.
  - destruct (updateRopePhysics_pins s a b len Hends) as (s1 & Hup & H1 & H0 & Hl).
    exists s1.
    pose proof Hup as Hup'.
    rewrite (updateRopePhysics_step s a b len (ends_pinned_nonempty _ Hends)) in Hup'.
    injection Hup' as Hs1.
    assert (Hlen : length (points s1) = length (points s)).
    { rewrite <- Hs1. cbn [points]. apply flags_length, integration_step_flags. }
    assert (HA : lastA s1 = a) by now rewrite <- Hs1.
    assert (HB : lastB s1 = b) by now rewrite <- Hs1.
    pose proof (updateRopePhysics_step s1 a b len2 (ends_pinned_nonempty _ H1)) as Hup2.
    eexists. split; [exact Hup|]. split; [exact Hup2|]. cbn [points].
    rewrite <- HA at 1. rewrite <- HB at 1. rewrite integration_step_unmoved.
    rewrite HA, HB, Hlen, (pinEndpoints_at_rest a b (points s1) H0 Hl). reflexivity.
Qed.

Lemma unmoved_endpoints_no_momentum_witness :
  exists s',
    updateRopePhysics Scenario.rope (lastA Scenario.rope) (lastB Scenario.rope) 100 = Some s' /\
    points s' =
      Nat.iter ROPE_ITERATIONS
        (relax (100 / of_nat (length (points Scenario.rope) - 1))%float)
        (verlet (pinEndpoints (lastA Scenario.rope) (lastB Scenario.rope)
                   (points Scenario.rope))).
Proof.
  apply (unmoved_endpoints_no_momentum Scenario.rope Scenario.a Scenario.b 100 100).
  vm_compute. reflexivity.
Defined.

Lemma verlet_interior (pts : list RopePoint) i :
  1 <= i -> i + 1 < length pts -> verlet pts !! i = verletPoint <$> pts !! i.
Proof.
  intros H1 H2. unfold verlet.
  apply (for_each_alter_in (fun _ => verletPoint)).
  - apply NoDup_seq.
  - unfold up_range. rewrite elem_of_seq. lia.
Qed.

Lemma constrainPair_previous targetLen i pts :
  previous <$> constrainPair targetLen i pts = previous <$> pts.
Proof.
  unfold constrainPair.
  destruct (pts !! i) as [p1|]; [|reflexivity].
  destruct (pts !! (i + 1)) as [p2|]; [|reflexivity].
  destruct (ltb _ _); [reflexivity|].
  destruct (pinned p1), (pinned p2); rewrite ?fmap_alter_proj; reflexivity.
Qed.

Lemma relax_previous targetLen pts : previous <$> relax targetLen pts = previous <$> pts.
Proof.
  unfold relax.
  apply (for_each_invariant (fun acc => previous <$> acc = previous <$> pts)); [reflexivity|].
  intros i acc _ Hacc. now rewrite constrainPair_previous.
Qed.

Lemma lookup_proj {B : Type} (proj : RopePoint -> B) (pts pts' : list RopePoint) i p :
  proj <$> pts' = proj <$> pts -> pts !! i = Some p ->
  exists p', pts' !! i = Some p' /\ proj p' = proj p.
Proof.
  intros H Hi. apply (f_equal (fun l => l !! i)) in H.
  rewrite !list_lookup_fmap, Hi in H.
  destruct (pts' !! i) as [p'|]; [|discriminate]. injection H as H. eauto.
Qed.

(** X7. Verlet bookkeeping: after a step, the previous position of every
    interior point is the current position it had before the step, whatever
    momentum was transferred and however the constraints moved it. *)
Theorem step_previous_is_old_current (s : RopeState) (a b : vec2) (len : float)
    (i : nat) (p : RopePoint) :
  1 <= i -> i + 1 < length (points s) ->
  points s !! i = Some p ->
  exists s' p',
    updateRopePhysics s a b len = Some s' /\
    points s' !! i = Some p' /\
    oldX p' = x p /\ oldY p' = y p.
Proof.
  intros H1 H2 Hp.
  assert (Hne : points s <> []) by (intros E; rewrite E in H2; simpl in H2; lia).
  rewrite (updateRopePhysics_step s a b len Hne).
  eexists. cbn [points]. unfold integration_step. cbv zeta.
  match goal with
  | |- context [pinEndpoints a b ?m] =>
      set (moved := m);
      assert (Hpos : position <$> moved = position <$> points s);
      [|assert (Hlen : length moved = length (points s))]
  end.
  { subst moved. destruct (gtb _ _); destruct (gtb _ _);
      rewrite ?momentumEnd_position, ?momentumStart_position; reflexivity. }
  { apply (f_equal length) in Hpos. now rewrite !length_fmap in Hpos. }
  destruct (lookup_proj position _ _ i p Hpos Hp) as (q & Hq & Hqp).
  assert (Hpin : pinEndpoints a b moved !! i = Some q).
  { unfold pinEndpoints. now rewrite !list_lookup_alter_ne by lia. }
  assert (Hver : verlet (pinEndpoints a b moved) !! i = Some (verletPoint q)).
  { rewrite verlet_interior, Hpin; [reflexivity | exact H1 |].
    rewrite (flags_length _ _ (pinEndpoints_flags a b moved)). lia. }
  set (integrated := verlet (pinEndpoints a b moved)) in *.
  set (targetLen := (len / of_nat (length integrated - 1))%float).
  assert (Hprev : previous <$> relax targetLen (relax targetLen (relax targetLen
                    (relax targetLen integrated))) = previous <$> integrated).
  { now rewrite !relax_previous. }
  destruct (lookup_proj previous _ _ i _ Hprev Hver) as (p' & Hp' & Hpp').
  exists p'. split; [reflexivity|]. split; [exact Hp'|].
  unfold previous, verletPoint, position in Hpp', Hqp. cbn in Hpp'.
  injection Hpp' as -> ->. injection Hqp as -> ->. now split.
Qed.

Lemma step_previous_is_old_current_witness :
  exists s' p',
    updateRopePhysics Scenario.rope Scenario.a Scenario.far_b 1000 = Some s' /\
    points s' !! 4 = Some p' /\
    oldX p' = 50%float /\ oldY p' = 15%float.
Proof.
  apply (step_previous_is_old_current Scenario.rope Scenario.a Scenario.far_b 1000 4
           (mkPoint 50 15 50 15 false)).
  - lia.
  - vm_compute. lia.
  - vm_compute. reflexivity.
Defined.

(** ** Stroking the rope *)

Lemma for_each_append (seg : nat -> list CanvasOp) indices (acc : list CanvasOp) :
  for_each indices (fun i ops => ops ++ seg i) acc = acc ++ concat (seg <$> indices).
Proof.
  unfold for_each. revert acc.
  induction indices as [|i indices IH]; intros acc; simpl.
  - now rewrite app_nil_r.
  - rewrite IH. now rewrite <- app_assoc.
Qed.

Lemma ropeSegment_length (pts : list RopePoint) indices :
  (forall i, i ∈ indices -> i + 1 < length pts) ->
  length (concat (ropeSegment pts <$> indices)) = length indices.
Proof.
  induction indices as [|i indices IH]; intros Hin; [reflexivity|].
  rewrite fmap_cons. cbn [concat length].
  rewrite length_app, IH by (intros j Hj; apply Hin; now right).
  assert (Hi : i + 1 < length pts) by (apply Hin; left).
  unfold ropeSegment.
  destruct (lookup_lt_is_Some_2 pts i) as [p ->]; [lia|].
  destruct (lookup_lt_is_Some_2 pts (i + 1)) as [q ->]; [lia|].
  reflexivity.
Qed.

Lemma smartSegment_ropeSegment : smartSegment = ropeSegment.
Proof. reflexivity. Qed.

(** The segment the loop of [drawRope] adds for interior point [lo + i]. *)
Lemma ropeSegment_lookup (pts : list RopePoint) (k lo i : nat) (p q : RopePoint) :
  i < k ->
  pts !! (lo + i) = Some p -> pts !! (lo + i + 1) = Some q ->
  (forall j, j < k -> lo + j + 1 < length pts) ->
  concat (ropeSegment pts <$> seq lo k) !! i
  = Some (QuadraticCurveTo (x p) (y p) ((x p + x q) / 2) ((y p + y q) / 2))%float.
Proof.
  revert lo i. induction k as [|k IH]; intros lo i Hi Hp Hq Hin; [lia|].
  cbn [seq]. rewrite fmap_cons. cbn [concat].
  assert (Hlo : lo + 0 + 1 < length pts) by (apply Hin; lia).
  destruct (lookup_lt_is_Some_2 pts lo) as [p0 Hp0]; [lia|].
  destruct (lookup_lt_is_Some_2 pts (lo + 1)) as [q0 Hq0]; [lia|].
  unfold ropeSegment at 1. rewrite Hp0, Hq0.
  destruct i as [|i].
  - replace (lo + 0) with lo in Hp, Hq by lia.
    rewrite Hp0 in Hp. rewrite Hq0 in Hq. injection Hp as <-. injection Hq as <-.
    reflexivity.
  - cbn [app]. change ((?e :: ?l) !! S i) with (l !! i).
    apply IH; [lia | | |].
    + now replace (S lo + i) with (lo + S i) by lia.
    + now replace (S lo + i + 1) with (lo + S i + 1) by lia.
    + intros j Hj. specialize (Hin (S j)). lia.
Qed.

Lemma drawRope_long (pts : list RopePoint) (color : option string)
    (lineWidth : option float) :
  2 <= length pts ->
  exists first last segments,
    pts !! 0 = Some first /\
    pts !! (length pts - 1) = Some last /\
    length segments = length pts - 2 /\
    (forall i p q,
        pts !! (i + 1) = Some p -> pts !! (i + 2) = Some q ->
        segments !! i
        = Some (QuadraticCurveTo (x p) (y p) ((x p + x q) / 2) ((y p + y q) / 2))%float) /\
    drawRope (Some pts) color lineWidth
    = [BeginPath; MoveTo (x first) (y first)] ++ segments
      ++ [LineTo (x last) (y last);
          SetStrokeStyle (stroke_of color);
          SetLineWidth (match lineWidth with
                        | Some w => if truthy w then w else 2
                        | None => 2
                        end)%float;
          Stroke].
Proof.
  intros Hlen. unfold drawRope.
  assert (Hge : (length pts <? 2) = false) by (apply Nat.ltb_ge; lia).
  rewrite Hge.
  destruct (lookup_lt_is_Some_2 pts 0) as [first Hfirst]; [lia|].
  destruct (lookup_lt_is_Some_2 pts (length pts - 1)) as [last Hlast]; [lia|].
  rewrite Hfirst, Hlast, for_each_append.
  exists first, last, (concat (ropeSegment pts <$> up_range 1 (length pts - 1))).
  split; [reflexivity|]. split; [reflexivity|]. split; [|split; [|reflexivity]].
  - rewrite ropeSegment_length.
    + unfold up_range. rewrite length_seq. lia.
    + intros i Hi. unfold up_range in Hi. apply elem_of_seq in Hi. lia.
  - intros i p q Hp Hq. unfold up_range.
    assert (Hi : i + 2 < length pts) by (apply lookup_lt_is_Some; eauto).
    apply ropeSegment_lookup.
    + lia.
    + now replace (1 + i) with (i + 1) by lia.
    + now replace (1 + i + 1) with (i + 2) by lia.
    + intros j Hj. lia.
Qed.

(** X8. [drawRope] draws nothing for an absent rope and for fewer than two
    points.  Otherwise it strokes one path that starts at the first point,
    has one quadratic segment for each interior point, through that point
    to the middle between it and the next point, and ends with a line to
    the last point; the stroke style is the color given or the default, the
    line width the width given or 2. *)
Theorem drawRope_path (pts : list RopePoint) (color : option string)
    (lineWidth : option float) :
  drawRope None color lineWidth = [] /\
  (length pts < 2 -> drawRope (Some pts) color lineWidth = []) /\
  (2 <= length pts ->
   exists first last segments,
     pts !! 0 = Some first /\
     pts !! (length pts - 1) = Some last /\
     length segments = length pts - 2 /\
     (forall i p q,
         pts !! (i + 1) = Some p -> pts !! (i + 2) = Some q ->
         segments !! i
         = Some (QuadraticCurveTo (x p) (y p) ((x p + x q) / 2) ((y p + y q) / 2))%float) /\
     drawRope (Some pts) color lineWidth
     = [BeginPath; MoveTo (x first) (y first)] ++ segments
       ++ [LineTo (x last) (y last);
           SetStrokeStyle (stroke_of color);
           SetLineWidth (match lineWidth with
                         | Some w => if truthy w then w else 2
                         | None => 2
                         end)%float;
           Stroke]).
Proof.
  split; [now destruct color, lineWidth|]. split.
  - intros Hlen. unfold drawRope. apply Nat.ltb_lt in Hlen. now rewrite Hlen.
  - apply drawRope_long.
Qed.

Lemma drawRope_path_witness :
  drawRope (Some [at_rest Scenario.a true]) None None = [] /\
  exists first last segments,
    points Scenario.rope !! 0 = Some first /\
    points Scenario.rope !! (length (points Scenario.rope) - 1) = Some last /\
    length segments = length (points Scenario.rope) - 2 /\
    (forall i p q,
        points Scenario.rope !! (i + 1) = Some p ->
        points Scenario.rope !! (i + 2) = Some q ->
        segments !! i
        = Some (QuadraticCurveTo (x p) (y p) ((x p + x q) / 2) ((y p + y q) / 2))%float) /\
    drawRope (Some (points Scenario.rope)) None None
    = [BeginPath; MoveTo (x first) (y first)] ++ segments
      ++ [LineTo (x last) (y last);
          SetStrokeStyle "rgba(150, 150, 150, 0.8)";
          SetLineWidth 2%float;
          Stroke].
Proof.
  split.
  - apply (drawRope_path [at_rest Scenario.a true] None None). simpl. lia.
  - apply (drawRope_path (points Scenario.rope) None None). vm_compute. lia.
Defined.

(** X9. The rope drawn after a step joins the endpoints of the connector:
    from a rope with pinned ends, the path [drawRope] strokes for the points
    [updateRopePhysics] returns starts exactly at [a] and ends exactly at
    [b], with one quadratic segment for each interior point of the rope
    returned, through that point to the middle between it and the next. *)
Theorem drawn_rope_joins_endpoints (s : RopeState) (a b : vec2) (len : float)
    (color : option string) (lineWidth : option float) :
  ends_pinned (points s) = true ->
  exists s' segments,
    updateRopePhysics s a b len = Some s' /\
    length segments = length (points s) - 2 /\
    (forall i p q,
        points s' !! (i + 1) = Some p -> points s' !! (i + 2) = Some q ->
        segments !! i
        = Some (QuadraticCurveTo (x p) (y p) ((x p + x q) / 2) ((y p + y q) / 2))%float) /\
    drawRope (Some (points s')) color lineWidth
    = [BeginPath; MoveTo a.1 a.2] ++ segments
      ++ [LineTo b.1 b.2;
          SetStrokeStyle (stroke_of color);
          SetLineWidth (match lineWidth with
                        | Some w => if truthy w then w else 2
                        | None => 2
                        end)%float;
          Stroke].
Proof.
  intros Hends.
  destruct (updateRopePhysics_pins s a b len Hends) as (s' & Hup & Hends' & H0 & Hl).
  assert (Hlen : length (points s') = length (points s)).
  { rewrite (updateRopePhysics_step s a b len (ends_pinned_nonempty _ Hends)) in Hup.
    injection Hup as <-. cbn [points]. apply flags_length, integration_step_flags. }
  apply ends_pinned_spec in Hends' as (Hge & _ & _).
  destruct (drawRope_long (points s') color lineWidth Hge)
    as (first & last & segments & Hf & Hla & Hseg & Hquad & Hdraw).
  rewrite H0 in Hf. rewrite Hl in Hla. injection Hf as <-. injection Hla as <-.
  exists s', segments. rewrite <- Hlen. auto.
Qed.

Lemma drawn_rope_joins_endpoints_witness :
  exists s' segments,
    updateRopePhysics Scenario.rope Scenario.a Scenario.far_b 1000 = Some s' /\
    length segments = length (points Scenario.rope) - 2 /\
    (forall i p q,
        points s' !! (i + 1) = Some p -> points s' !! (i + 2) = Some q ->
        segments !! i
        = Some (QuadraticCurveTo (x p) (y p) ((x p + x q) / 2) ((y p + y q) / 2))%float) /\
    drawRope (Some (points s')) None None
    = [BeginPath; MoveTo Scenario.a.1 Scenario.a.2] ++ segments
      ++ [LineTo Scenario.far_b.1 Scenario.far_b.2;
          SetStrokeStyle "rgba(150, 150, 150, 0.8)";
          SetLineWidth 2%float;
          Stroke].
Proof.
  apply (drawn_rope_joins_endpoints Scenario.rope Scenario.a Scenario.far_b 1000 None None).
  vm_compute. reflexivity.
Defined.

(** X10. [drawSmartCurve] strokes, for a rope of two points or more, the
    very path [drawRope] strokes (without setting color and width), and the
    single cubic of [drawBezier] for an absent or shorter rope; the control
    points of that cubic are the ones [bezierPoint] evaluates. *)
Theorem drawSmartCurve_paths (a b : vec2) (cp t : float) (pts : list RopePoint)
    (color : option string) (lineWidth : option float) :
  drawSmartCurve a b cp None = drawBezier a b cp /\
  (length pts < 2 -> drawSmartCurve a b cp (Some pts) = drawBezier a b cp) /\
  (2 <= length pts ->
   exists path style width,
     drawRope (Some pts) color lineWidth
       = path ++ [SetStrokeStyle style; SetLineWidth width; Stroke] /\
     drawSmartCurve a b cp (Some pts) = path ++ [Stroke]) /\
  (exists c1x c1y c2x c2y,
      drawBezier a b cp
        = [BeginPath; MoveTo a.1 a.2; BezierCurveTo c1x c1y c2x c2y b.1 b.2; Stroke] /\
      bezierPoint t a b cp
        = let mt := (1 - t)%float in
          ((mt * mt * mt * a.1 + 3 * (mt * mt) * t * c1x + 3 * mt * (t * t) * c2x
            + t * t * t * b.1)%float,
           (mt * mt * mt * a.2 + 3 * (mt * mt) * t * c1y + 3 * mt * (t * t) * c2y
            + t * t * t * b.2)%float)).
Proof.
  split; [reflexivity|]. split; [|split].
  - intros Hlen. unfold drawSmartCurve.
    assert (Hlt : (2 <=? length pts) = false) by (apply Nat.leb_gt; lia).
    now rewrite Hlt.
  - intros Hlen. unfold drawSmartCurve, drawRope.
    assert (Hge : (length pts <? 2) = false) by (apply Nat.ltb_ge; lia).
    assert (Hle : (2 <=? length pts) = true) by (apply Nat.leb_le; lia).
    rewrite Hge, Hle, smartSegment_ropeSegment.
    destruct (lookup_lt_is_Some_2 pts 0) as [first ->]; [lia|].
    destruct (lookup_lt_is_Some_2 pts (length pts - 1)) as [last ->]; [lia|].
    exists ([BeginPath; MoveTo (x first) (y first)]
            ++ for_each (up_range 1 (length pts - 1))
                 (fun i ops => ops ++ ropeSegment pts i) []
            ++ [LineTo (x last) (y last)]).
    eexists. eexists. split; rewrite <- !app_assoc; reflexivity.
  - do 4 eexists. split; reflexivity.
Qed.

Lemma drawSmartCurve_paths_witness :
  drawSmartCurve Scenario.a Scenario.b 40 (Some [at_rest Scenario.a true])
    = drawBezier Scenario.a Scenario.b 40 /\
  exists path style width,
    drawRope (Some (points Scenario.rope)) None None
      = path ++ [SetStrokeStyle style; SetLineWidth width; Stroke] /\
    drawSmartCurve Scenario.a Scenario.b 40 (Some (points Scenario.rope)) = path ++ [Stroke].
Proof.
  split.
  - apply (drawSmartCurve_paths Scenario.a Scenario.b 40 0 [at_rest Scenario.a true] None None).
    simpl. lia.
  - apply (drawSmartCurve_paths Scenario.a Scenario.b 40 0 (points Scenario.rope) None None).
    vm_compute. lia.
Defined.

(** ** What a draw request draws *)

(** X11. The identity path.  The host's original routine is called only when
    no effect is selected and gravity is disabled; and then, for endpoints
    that are not [null] or [undefined], it is called, once, as the last
    thing the request does, after at most the GIF update, and the state is
    left as it was. *)
Theorem original_routine_path (g : Globals) (h : Host) (ctx : bool) (a b : JsVal)
    (link : option Link) (color : option string) (clk : Readings) (perf_now : float) :
  let r := patchedRenderLink g h ctx a b link color clk perf_now in
  (calls_original r = true -> currentEffect g = None /\ gravityEnabled g = false) /\
  (currentEffect g = None -> gravityEnabled g = false ->
   a <> JNullish -> b <> JNullish ->
   r = Returned (gif_part g h link ++ [OriginalRenderLink]) g).
Proof.
  cbv zeta. split.
  - destruct (patchedRenderLink_cases g h ctx a b link color clk perf_now)
      as [-> | (va & vb & rp & g1 & _ & _ & _ & ->)]; [discriminate|].
    unfold calls_original. rewrite !existsb_app.
    rewrite (proj1 (gif_part_events g h link)),
            (proj1 (effect_part_events g h ctx a b link _ rp perf_now)).
    cbn [orb]. apply connector_part_original.
  - intros Heff Hg Ha Hb.
    destruct (entries b) as [vb|] eqn:Eb; [|destruct b; [congruence|discriminate..]].
    destruct (entries a) as [va|] eqn:Ea; [|destruct a; [congruence|discriminate..]].
    rewrite (patchedRenderLink_returned g h ctx a b link color clk perf_now va vb None g
               Ea Eb); [| now rewrite Hg | now apply getRopePoints_disabled].
    unfold effect_part, connector_part. now rewrite Heff, Hg.
Qed.

Lemma original_routine_path_witness :
  patchedRenderLink initial Scenario.node_5_selected true (JArray 0 0) (JArray 100 0)
    (Scenario.link 3) None (Scenario.clock 1000) 1000
  = Returned (gif_part initial Scenario.node_5_selected (Scenario.link 3)
              ++ [OriginalRenderLink]) initial.
Proof.
  apply (original_routine_path initial Scenario.node_5_selected true (JArray 0 0)
           (JArray 100 0) (Scenario.link 3) None (Scenario.clock 1000) 1000);
    [reflexivity | reflexivity | discriminate | discriminate].
Defined.

(** X12. With gravity enabled, on a store of well-formed ropes and with
    endpoints that can be copied, a draw request does not throw and never
    calls the host's routine; given a drawing context it strokes the rope,
    2 units wide, in the host's color or the default one, as the last thing
    it does, and the points stroked are those the store holds for the
    connector afterwards. *)
Theorem gravity_draws_the_rope (g : Globals) (h : Host) (ctx : bool) (a b : JsVal)
    (va vb : vec2) (link : option Link) (color : option string) (clk : Readings)
    (perf_now : float) :
  gravityEnabled g = true ->
  store_ok g ->
  entries a = Some va -> entries b = Some vb ->
  spreadable a = true -> spreadable b = true ->
  let r := patchedRenderLink g h ctx a b link color clk perf_now in
  threw r = false /\
  calls_original r = false /\
  (ctx = true ->
   exists before pts s g',
     r = Returned (before ++ [RopeDraw pts (stroke_of color) 2]) g' /\
     existsb is_RopeDraw before = false /\
     ropePhysics g' !! getRopeKey link va vb = Some s /\
     points s = pts).
Proof.
  intros Hg Hok Ea Eb Sa Sb r.
  destruct (getRopePoints_returns g link va vb
              (Math_hypot (vb.1 - va.1) (vb.2 - va.2)) clk Hg Hok)
    as (pts & s & g' & Hcall & Hlook & Hpts).
  assert (Hr : r = Returned (gif_part g h link
                 ++ effect_part g h ctx a b link
                      (Math_hypot (vb.1 - va.1) (vb.2 - va.2)) (Some pts) perf_now
                 ++ connector_part g ctx color (Some pts)) g').
  { apply patchedRenderLink_returned; auto. now rewrite Sa, Sb, Hg. }
  rewrite Hr. split; [reflexivity|]. split.
  - unfold calls_original. rewrite !existsb_app.
    rewrite (proj1 (gif_part_events g h link)),
            (proj1 (effect_part_events g h ctx a b link _ (Some pts) perf_now)).
    cbn [orb]. unfold connector_part. rewrite Hg.
    destruct ctx; [reflexivity|]. cbn [andb]. now destruct (currentEffect g).
  - intros ->.
    exists (gif_part g h link
            ++ effect_part g h true a b link
                 (Math_hypot (vb.1 - va.1) (vb.2 - va.2)) (Some pts) perf_now),
           pts, s, g'.
    unfold connector_part. rewrite Hg. cbn [andb]. rewrite <- app_assoc.
    split; [reflexivity|]. split; [|now split].
    rewrite existsb_app.
    rewrite (proj2 (proj2 (gif_part_events g h link))),
            (proj2 (effect_part_events g h true a b link _ (Some pts) perf_now)).
    reflexivity.
Qed.

Lemma gravity_draws_the_rope_witness :
  exists before pts s g',
    patchedRenderLink Scenario.one_rope Scenario.node_5_selected true
      (JArray 0 0) (JArray 100 0) (Scenario.link 3) None (Scenario.clock 1016) 1016
    = Returned (before ++ [RopeDraw pts (stroke_of None) 2]) g' /\
    existsb is_RopeDraw before = false /\
    ropePhysics g' !! getRopeKey (Scenario.link 3) Scenario.a Scenario.b = Some s /\
    points s = pts.
Proof.
  assert (Hg : gravityEnabled Scenario.one_rope = true) by (vm_compute; reflexivity).
  assert (Hok : store_ok Scenario.one_rope).
  { apply (bool_decide_unpack _). vm_compute. reflexivity. }
  exact (proj2 (proj2 (gravity_draws_the_rope Scenario.one_rope Scenario.node_5_selected
                         true (JArray 0 0) (JArray 100 0) Scenario.a Scenario.b
                         (Scenario.link 3) None (Scenario.clock 1016) 1016
                         Hg Hok eq_refl eq_refl eq_refl eq_refl)) eq_refl).
Defined.

(** X13. What an effect drawing implies and what it is given.  If a draw
    request draws the effect, an effect of the table is selected, a drawing
    context was passed, both endpoints are Arrays and the animate-link
    predicate admits the connector.  With these, on a store of well-formed
    ropes, the effect is drawn once, with the rope points of the request
    and, as its time, the fixed [staticTime] in mode [static] and the clock
    otherwise. *)
Theorem effect_drawing_conditions (g : Globals) (h : Host) (ctx : bool) (a b : JsVal)
    (link : option Link) (color : option string) (clk : Readings) (perf_now : float) :
  let r := patchedRenderLink g h ctx a b link color clk perf_now in
  (draws_effect r = true ->
   exists e, currentEffect g = Some e /\ e < NUM_EFFECTS /\ ctx = true /\
             Array_isArray a = true /\ Array_isArray b = true /\
             shouldAnimateLink g h link = true) /\
  (forall e va vb,
      currentEffect g = Some e -> e < NUM_EFFECTS -> ctx = true ->
      a = JArray va.1 va.2 -> b = JArray vb.1 vb.2 ->
      shouldAnimateLink g h link = true ->
      store_ok g ->
      exists rp g' after,
        getRopePoints g link va vb (Math_hypot (vb.1 - va.1) (vb.2 - va.2)) clk
          = Normal rp g' /\
        r = Returned
              (gif_part g h link
               ++ [EffectDraw e
                     (if String.eqb (animationMode g) "static" then staticTime g else perf_now)
                     (Math_hypot (vb.1 - va.1) (vb.2 - va.2)) rp]
               ++ after) g' /\
        existsb is_EffectDraw after = false).
Proof.
  cbv zeta. split.
  - destruct (patchedRenderLink_cases g h ctx a b link color clk perf_now)
      as [-> | (va & vb & rp & g1 & _ & _ & _ & ->)]; [discriminate|].
    unfold draws_effect. rewrite !existsb_app.
    rewrite (proj1 (proj2 (gif_part_events g h link))), connector_part_effect, orb_false_r.
    cbn [orb]. unfold effect_part.
    destruct (currentEffect g) as [e|]; [|discriminate].
    destruct ctx; [|discriminate].
    destruct (Array_isArray a); [|discriminate].
    destruct (Array_isArray b); [|discriminate].
    destruct (shouldAnimateLink g h link); [|discriminate].
    destruct (e <? NUM_EFFECTS)%nat eqn:He; [|discriminate].
    intros _. exists e. apply Nat.ltb_lt in He. now repeat split.
  - intros e [a0 a1] [b0 b1] He Hlt -> -> -> Hanim Hok. cbn [fst snd].
    set (va := (a0, a1)). set (vb := (b0, b1)).
    change a0 with va.1. change a1 with va.2. change b0 with vb.1. change b1 with vb.2.
    assert (Hcall : exists rp g', getRopePoints g link va vb
                      (Math_hypot (vb.1 - va.1) (vb.2 - va.2)) clk = Normal rp g').
    { destruct (gravityEnabled g) eqn:Hg.
      - destruct (getRopePoints_returns g link va vb
                    (Math_hypot (vb.1 - va.1) (vb.2 - va.2)) clk Hg Hok)
          as (pts & s & g' & -> & _).
        eauto.
      - rewrite (getRopePoints_disabled g link va vb _ clk Hg). eauto. }
    destruct Hcall as (rp & g' & Hcall).
    exists rp, g', (connector_part g true color rp). split; [exact Hcall|]. split.
    + rewrite (patchedRenderLink_returned g h true (JArray va.1 va.2) (JArray vb.1 vb.2)
                 link color clk perf_now va vb rp g' eq_refl eq_refl);
        [|now rewrite andb_false_r|exact Hcall].
      unfold effect_part, getTimeForEffect. rewrite He, Hanim. cbn [Array_isArray andb].
      apply Nat.ltb_lt in Hlt. now rewrite Hlt.
    + apply connector_part_effect.
Qed.

Lemma effect_drawing_conditions_witness :
  exists rp g' after,
    getRopePoints Scenario.with_effect (Scenario.link 3) Scenario.a Scenario.b
      (Math_hypot (Scenario.b.1 - Scenario.a.1) (Scenario.b.2 - Scenario.a.2))
      (Scenario.clock 1000) = Normal rp g' /\
    patchedRenderLink Scenario.with_effect Scenario.node_5_selected true
      (JArray Scenario.a.1 Scenario.a.2) (JArray Scenario.b.1 Scenario.b.2)
      (Scenario.link 3) None (Scenario.clock 1000) 1234
    = Returned
        (gif_part Scenario.with_effect Scenario.node_5_selected (Scenario.link 3)
         ++ [EffectDraw 0
               (if String.eqb (animationMode Scenario.with_effect) "static"
                then staticTime Scenario.with_effect else 1234)
               (Math_hypot (Scenario.b.1 - Scenario.a.1) (Scenario.b.2 - Scenario.a.2)) rp]
         ++ after) g' /\
    existsb is_EffectDraw after = false.
Proof.
  assert (Hlt : 0 < NUM_EFFECTS) by (unfold NUM_EFFECTS; lia).
  assert (Hok : store_ok Scenario.with_effect).
  { apply (bool_decide_unpack _). vm_compute. reflexivity. }
  exact (proj2 (effect_drawing_conditions Scenario.with_effect Scenario.node_5_selected
                  true (JArray Scenario.a.1 Scenario.a.2) (JArray Scenario.b.1 Scenario.b.2)
                  (Scenario.link 3) None (Scenario.clock 1000) 1234)
           0 Scenario.a Scenario.b eq_refl Hlt eq_refl eq_refl eq_refl eq_refl Hok).
Defined.

(** X14. The two hooks behave alike: [patchedDrawLink] does what
    [patchedRenderLink] does when the host passes no color, and for any
    color the two differ at most in the stroke style of the rope. *)
Theorem patchedDrawLink_like_patchedRenderLink (g : Globals) (h : Host) (ctx : bool)
    (a b : JsVal) (link : option Link) (color : option string) (clk : Readings)
    (perf_now : float) :
  patchedDrawLink g h ctx a b link clk perf_now
    = patchedRenderLink g h ctx a b link None clk perf_now /\
  threw (patchedDrawLink g h ctx a b link clk perf_now)
    = threw (patchedRenderLink g h ctx a b link color clk perf_now) /\
  draws_effect (patchedDrawLink g h ctx a b link clk perf_now)
    = draws_effect (patchedRenderLink g h ctx a b link color clk perf_now) /\
  draws_rope (patchedDrawLink g h ctx a b link clk perf_now)
    = draws_rope (patchedRenderLink g h ctx a b link color clk perf_now) /\
  calls_original (patchedDrawLink g h ctx a b link clk perf_now)
    = calls_original (patchedRenderLink g h ctx a b link color clk perf_now).
Proof.
  split; [reflexivity|].
  unfold patchedDrawLink, patchedRenderLink.
  destruct (entries b); [|now repeat split].
  destruct (entries a); [|now repeat split].
  destruct (gravityEnabled g && _); [now repeat split|].
  destruct (getRopePoints _ _ _ _ _ _) as [rp g1|g1]; [|now repeat split].
  destruct (if gravityEnabled g1 && ctx then rp else None); [|now repeat split].
  unfold draws_effect, draws_rope, calls_original.
  rewrite !existsb_app. cbn [existsb is_EffectDraw is_RopeDraw is_OriginalRenderLink].
  now repeat split.
Qed.

(** X15. A draw request whose endpoints are Arrays never throws, in any
    state reached from the initial one by requests and clicks on the gravity
    switch, whatever the effect, the mode and the GIF settings. *)
Theorem array_endpoints_never_throw (es : list Event) (effect : option nat)
    (mode : string) (gif : bool) (h : Host) (ctx : bool) (a0 a1 b0 b1 : float)
    (link : option Link) (color : option string) (clk : Readings) (perf_now : float) :
  threw (patchedRenderLink
           (set_gifEnabled gif (set_animationMode mode
              (set_currentEffect effect (run initial es))))
           h ctx (JArray a0 a1) (JArray b0 b1) link color clk perf_now) = false.
Proof.
  set (g := set_gifEnabled _ _).
  assert (Hok : store_ok g) by (apply (run_store_ok initial es), map_Forall_empty).
  assert (Hcall : exists rp g', getRopePoints g link (a0, a1) (b0, b1)
                    (Math_hypot (b0 - a0) (b1 - a1)) clk = Normal rp g').
  { destruct (gravityEnabled g) eqn:Hg.
    - destruct (getRopePoints_returns g link (a0, a1) (b0, b1)
                  (Math_hypot (b0 - a0) (b1 - a1)) clk Hg Hok)
        as (pts & s & g' & -> & _).
      eauto.
    - rewrite (getRopePoints_disabled g link _ _ _ clk Hg). eauto. }
  destruct Hcall as (rp & g' & Hcall).
  rewrite (patchedRenderLink_returned g h ctx (JArray a0 a1) (JArray b0 b1) link color
             clk perf_now (a0, a1) (b0, b1) rp g' eq_refl eq_refl);
    [reflexivity| |exact Hcall].
  now rewrite andb_false_r.
Qed.

(** ** The selection and the animate-link predicate *)

Lemma has_elem (ids : list (option Z)) (n : Z) : Some n ∈ ids -> has ids n = true.
Proof.
  intros Hin. unfold has. apply existsb_exists. exists (Some n).
  split; [now apply list_elem_of_In | apply Z.eqb_refl].
Qed.

Lemma shouldAnimateLink_selected_eq (g : Globals) (h : Host) (l : Link) :
  animationMode g = "selected" ->
  shouldAnimateLink g h (Some l)
  = has (getSelectedNodeIds h) (origin_id l) || has (getSelectedNodeIds h) (target_id l).
Proof.
  intros Hm. unfold shouldAnimateLink. rewrite Hm.
  change (String.eqb "selected" "full") with false.
  change (String.eqb "selected" "static") with false.
  change (String.eqb "selected" "selected") with true.
  now destruct (getSelectedNodeIds h).
Qed.

(** X16. In mode [selected] a connector with a link object is animated
    exactly when its origin or its target node is among the selected ones;
    with nothing selected, or no selection to read, none is.  In a mode
    other than the three known ones nothing is animated. *)
Theorem shouldAnimateLink_selected (g : Globals) (h : Host) (l : Link)
    (link : option Link) :
  (animationMode g = "selected" ->
   shouldAnimateLink g h (Some l)
   = has (getSelectedNodeIds h) (origin_id l) || has (getSelectedNodeIds h) (target_id l)) /\
  (animationMode g = "selected" ->
   selected_nodes h = None \/ selected_nodes h = Some [] ->
   shouldAnimateLink g h (Some l) = false) /\
  (animationMode g <> "full" -> animationMode g <> "static" ->
   animationMode g <> "selected" ->
   shouldAnimateLink g h link = false).
Proof.
  split; [|split].
  - apply shouldAnimateLink_selected_eq.
  - intros Hm Hsel. rewrite (shouldAnimateLink_selected_eq g h l Hm).
    unfold getSelectedNodeIds. now destruct Hsel as [-> | ->].
  - intros H1 H2 H3. unfold shouldAnimateLink.
    apply String.eqb_neq in H1, H2, H3. now rewrite H1, H2, H3.
Qed.

Lemma shouldAnimateLink_selected_witness :
  shouldAnimateLink (set_animationMode "selected" initial) Scenario.node_5_selected
    (Some {| link_id := None; origin_id := 5; target_id := 9 |})
  = has (getSelectedNodeIds Scenario.node_5_selected) 5
    || has (getSelectedNodeIds Scenario.node_5_selected) 9.
Proof.
  apply (shouldAnimateLink_selected (set_animationMode "selected" initial)
           Scenario.node_5_selected {| link_id := None; origin_id := 5; target_id := 9 |}
           None).
  reflexivity.
Defined.

Lemma digit_value_pretty (r : N) :
  (r < 10)%N -> digit_value (pretty_N_char r) = Some (Z.of_N r).
Proof.
  intros Hr.
  assert (r = 0 \/ r = 1 \/ r = 2 \/ r = 3 \/ r = 4 \/ r = 5 \/ r = 6 \/ r = 7 \/ r = 8
          \/ r = 9)%N as Hcases by lia.
  repeat (destruct Hcases as [-> | Hcases]; [reflexivity|]). now subst.
Qed.

Lemma parse_digits_pretty_N_go (n : N) (s : string) :
  (0 < n)%N ->
  parse_digits 10 (pretty_N_go n s) None = parse_digits 10 s (Some (Z.of_N n)).
Proof.
  revert s. induction (N.lt_wf_0 n) as [n _ IH]. intros s Hn.
  rewrite pretty_N_go_step by exact Hn.
  assert (Hr : (n `mod` 10 < 10)%N) by (apply N.mod_lt; lia).
  assert (Hdigit : forall acc,
             parse_digits 10 (String (pretty_N_char (n `mod` 10)) s) acc
             = parse_digits 10 s (Some (default 0 acc * 10 + Z.of_N (n `mod` 10))%Z)).
  { intros acc. cbn [parse_digits]. rewrite (digit_value_pretty _ Hr).
    assert (Hlt : (Z.of_N (n `mod` 10) <? 10)%Z = true) by (apply Z.ltb_lt; lia).
    now rewrite Hlt. }
  pose proof (N.div_mod n 10 ltac:(discriminate)) as Hdm.
  destruct (decide (n `div` 10 = 0)%N) as [Hq|Hq].
  - rewrite Hq, pretty_N_go_0, Hdigit. cbv [default from_option id].
    replace (0 * 10 + Z.of_N (n `mod` 10))%Z with (Z.of_N n) by lia. reflexivity.
  - rewrite IH; [| apply N.div_lt; lia | now apply N.neq_0_lt_0].
    rewrite Hdigit. cbv [default from_option id].
    replace (Z.of_N (n `div` 10) * 10 + Z.of_N (n `mod` 10))%Z with (Z.of_N n) by lia.
    reflexivity.
Qed.

(** A printed positive number starts with a digit, followed by a digit or
    by what was there before. *)
Lemma pretty_N_go_head (n : N) (s : string) :
  (0 < n)%N ->
  exists d rest,
    (d < 10)%N /\ pretty_N_go n s = String (pretty_N_char d) rest /\
    (rest = s \/ exists d' rest', (d' < 10)%N /\ rest = String (pretty_N_char d') rest').
Proof.
  revert s. induction (N.lt_wf_0 n) as [n _ IH]. intros s Hn.
  rewrite pretty_N_go_step by exact Hn.
  assert (Hr : (n `mod` 10 < 10)%N) by (apply N.mod_lt; lia).
  destruct (decide (n `div` 10 = 0)%N) as [Hq|Hq].
  - rewrite Hq, pretty_N_go_0. exists (n `mod` 10)%N, s. auto.
  - destruct (IH (n `div` 10)%N) with (s := String (pretty_N_char (n `mod` 10)) s)
      as (d & rest & Hd & E & Hrest);
      [apply N.div_lt; lia | now apply N.neq_0_lt_0 |].
    exists d, rest. split; [exact Hd|]. split; [exact E|]. right.
    destruct Hrest as [-> | Hrest]; [eauto | exact Hrest].
Qed.

Lemma parseInt_digits (d : N) (rest : string) :
  (d < 10)%N ->
  rest = "" \/ (exists d' rest', (d' < 10)%N /\ rest = String (pretty_N_char d') rest') ->
  parseInt (String (pretty_N_char d) rest)
    = parse_digits 10 (String (pretty_N_char d) rest) None /\
  parseInt (String "-"%char (String (pretty_N_char d) rest))
    = Z.opp <$> parse_digits 10 (String (pretty_N_char d) rest) None.
Proof.
  intros Hd Hrest.
  assert (d = 0 \/ d = 1 \/ d = 2 \/ d = 3 \/ d = 4 \/ d = 5 \/ d = 6 \/ d = 7 \/ d = 8
          \/ d = 9)%N as Hcases by lia.
  assert (Hopt : forall o : option Z,
             match o with Some n => Some n | None => None end = o) by now intros [].
  assert (Hneg : forall o : option Z,
             match o with Some n => Some (- n)%Z | None => None end = Z.opp <$> o)
    by now intros [].
  destruct Hrest as [-> | (d' & rest' & Hd' & ->)].
  - repeat (destruct Hcases as [-> | Hcases]; [split; vm_compute; reflexivity|]).
    subst. split; vm_compute; reflexivity.
  - assert (d' = 0 \/ d' = 1 \/ d' = 2 \/ d' = 3 \/ d' = 4 \/ d' = 5 \/ d' = 6 \/ d' = 7
            \/ d' = 8 \/ d' = 9)%N as Hcases' by lia.
    unfold parseInt.
    repeat (destruct Hcases as [-> | Hcases];
            [repeat (destruct Hcases' as [-> | Hcases']; [split; [apply Hopt | apply Hneg]|]);
             subst; split; [apply Hopt | apply Hneg]|]).
    subst.
    repeat (destruct Hcases' as [-> | Hcases']; [split; [apply Hopt | apply Hneg]|]).
    subst; split; [apply Hopt | apply Hneg].
Qed.

(** Reading back the decimal form of an integer gives the integer. *)
Lemma parseInt_pretty (z : Z) : parseInt (pretty z) = Some z.
Proof.
  assert (Hpos : forall p : positive,
             exists d rest,
               pretty (N.pos p) = String (pretty_N_char d) rest /\
               (d < 10)%N /\
               (rest = "" \/ exists d' rest', (d' < 10)%N /\
                                rest = String (pretty_N_char d') rest') /\
               parse_digits 10 (String (pretty_N_char d) rest) None = Some (Z.pos p)).
  { intros p. unfold pretty, pretty_N. rewrite decide_False by discriminate.
    destruct (pretty_N_go_head (N.pos p) "") as (d & rest & Hd & E & Hrest); [lia|].
    exists d, rest. split; [exact E|]. split; [exact Hd|]. split; [exact Hrest|].
    rewrite <- E, parse_digits_pretty_N_go by lia. reflexivity. }
  destruct z as [|p|p].
  - reflexivity.
  - destruct (Hpos p) as (d & rest & E & Hd & Hrest & Hparse).
    change (pretty (Z.pos p)) with (pretty (N.pos p)). rewrite E.
    now rewrite (proj1 (parseInt_digits d rest Hd Hrest)).
  - destruct (Hpos p) as (d & rest & E & Hd & Hrest & Hparse).
    change (pretty (Z.neg p)) with ("-" +:+ pretty (N.pos p)). rewrite E.
    change ("-" +:+ String (pretty_N_char d) rest)
      with (String "-"%char (String (pretty_N_char d) rest)).
    rewrite (proj2 (parseInt_digits d rest Hd Hrest)), Hparse. reflexivity.
Qed.

(** X17. Selecting a node animates its connectors: in mode [selected], when
    the decimal form of a node id is a key of the host's [selected_nodes],
    every connector that starts or ends at that node is animated. *)
Theorem selected_node_animates_its_links (g : Globals) (h : Host) (keys : list string)
    (l : Link) (n : Z) :
  animationMode g = "selected" ->
  selected_nodes h = Some keys ->
  pretty n ∈ keys ->
  origin_id l = n \/ target_id l = n ->
  shouldAnimateLink g h (Some l) = true.
Proof.
  intros Hm Hsel Hkey Hend.
  rewrite (shouldAnimateLink_selected_eq g h l Hm).
  assert (Hin : Some n ∈ getSelectedNodeIds h).
  { unfold getSelectedNodeIds. rewrite Hsel. rewrite <- (parseInt_pretty n).
    now apply list_elem_of_fmap_2. }
  apply orb_true_iff. destruct Hend as [-> | ->]; [left | right]; now apply has_elem.
Qed.

Lemma selected_node_animates_its_links_witness :
  shouldAnimateLink (set_animationMode "selected" initial)
    {| selected_nodes := Some ["12"; "907"] |}
    (Some {| link_id := Some 4%Z; origin_id := 3; target_id := 907 |}) = true.
Proof.
  apply (selected_node_animates_its_links (set_animationMode "selected" initial)
           {| selected_nodes := Some ["12"; "907"] |} ["12"; "907"]
           {| link_id := Some 4%Z; origin_id := 3; target_id := 907 |} 907%Z).
  - reflexivity.
  - reflexivity.
  - vm_compute. right. left.
  - right. reflexivity.
Defined.

(** ** Connector keys *)

(** X18. Connectors with a link id are keyed by the id alone: the key does
    not depend on the endpoints (a connector keeps its rope while it is
    dragged), two ids have the same key only if they are equal, and such a
    key is never the position key of a connector without id.  A link
    object without id is keyed by position like no link at all. *)
Theorem getRopeKey_by_link_id (l1 l2 : Link) (n m : Z) (a b a' b' : vec2) :
  (link_id l1 = Some n -> getRopeKey (Some l1) a b = getRopeKey (Some l1) a' b') /\
  (link_id l1 = Some n -> link_id l2 = Some m ->
   getRopeKey (Some l1) a b = getRopeKey (Some l2) a' b' -> n = m) /\
  (link_id l1 = Some n -> getRopeKey (Some l1) a b <> getRopeKey None a' b') /\
  (link_id l1 = None -> getRopeKey (Some l1) a b = getRopeKey None a b).
Proof.
  destruct l1 as [id1 o1 t1], l2 as [id2 o2 t2]. cbn [link_id].
  repeat split.
  - now intros ->.
  - intros -> -> H. cbn [getRopeKey] in H.
    apply (inj (String.app "link_")) in H. now apply (inj pretty) in H.
  - intros -> H. discriminate H.
  - now intros ->.
Qed.

Lemma getRopeKey_by_link_id_witness :
  getRopeKey (Scenario.link 3) Scenario.a Scenario.b
    = getRopeKey (Scenario.link 3) Scenario.a Scenario.far_b /\
  getRopeKey (Scenario.link 3) Scenario.a Scenario.b
    <> getRopeKey None Scenario.a Scenario.b.
Proof.
  split.
  - apply (getRopeKey_by_link_id {| link_id := Some 3%Z; origin_id := 5; target_id := 9 |}
             {| link_id := Some 3%Z; origin_id := 5; target_id := 9 |} 3 3
             Scenario.a Scenario.b Scenario.a Scenario.far_b).
    reflexivity.
  - apply (getRopeKey_by_link_id {| link_id := Some 3%Z; origin_id := 5; target_id := 9 |}
             {| link_id := Some 3%Z; origin_id := 5; target_id := 9 |} 3 3
             Scenario.a Scenario.b Scenario.a Scenario.b).
    reflexivity.
Defined.

(** ** The side panel: animation loop and hooks *)

Lemma startAnimationLoop_spec (app : App) :
  globals (startAnimationLoop app) = globals app /\
  animationLoopId (startAnimationLoop app) = true.
Proof. unfold startAnimationLoop. now destruct (animationLoopId app) eqn:E. Qed.

Lemma stopAnimationLoop_spec (app : App) :
  globals (stopAnimationLoop app) = globals app /\
  animationLoopId (stopAnimationLoop app) = false.
Proof. unfold stopAnimationLoop. now destruct (animationLoopId app) eqn:E. Qed.

Lemma selectEffect_spec (index : option nat) (app : App) :
  globals (selectEffect index app) = set_currentEffect index (globals app) /\
  animationLoopId (selectEffect index app)
  = needsAnimation (set_currentEffect index (globals app)).
Proof.
  unfold selectEffect. cbn [globals hooks animationLoopId].
  destruct (negb (installed (hooks app)) && _); cbn [globals];
    destruct (needsAnimation (set_currentEffect index (globals app))) eqn:E;
    rewrite ?(proj1 (startAnimationLoop_spec _)), ?(proj2 (startAnimationLoop_spec _)),
            ?(proj1 (stopAnimationLoop_spec _)), ?(proj2 (stopAnimationLoop_spec _));
    now split.
Qed.

(** X19. After [selectEffect] the animation loop runs exactly when
    something needs animation (an effect outside mode [static], gravity, or
    the GIF overlay); the click on the gravity switch does to the settings
    and the store what [toggleGravity] does, and leaves the loop running
    whenever it enables gravity. *)
Theorem selectEffect_gravityClick_loop (index : option nat) (app : App) :
  animationLoopId (selectEffect index app) = needsAnimation (globals (selectEffect index app)) /\
  currentEffect (globals (selectEffect index app)) = index /\
  globals (selectEffect index app) = set_currentEffect index (globals app) /\
  globals (gravityClick app) = toggleGravity (globals app) /\
  (gravityEnabled (globals app) = false -> animationLoopId (gravityClick app) = true).
Proof.
  destruct (selectEffect_spec index app) as [Hg Hl]. rewrite Hg, Hl.
  split; [reflexivity|]. split; [reflexivity|]. split; [reflexivity|].
  unfold gravityClick, toggleGravity. cbn [globals animationLoopId hooks gravityEnabled
    set_gravityEnabled currentEffect gifEnabled animationMode lastRopeCleanup].
  destruct (gravityEnabled (globals app)) eqn:Hgrav; cbn [negb].
  - split; [|discriminate].
    destruct (_ && _ && _); rewrite ?(proj1 (stopAnimationLoop_spec _)); reflexivity.
  - rewrite (proj1 (startAnimationLoop_spec _)), (proj2 (startAnimationLoop_spec _)).
    now split.
Qed.

Lemma selectEffect_gravityClick_loop_witness :
  animationLoopId (gravityClick loaded) = true.
Proof.
  apply (selectEffect_gravityClick_loop None loaded). reflexivity.
Defined.

(** The cases of a handler: the loop was started, the premises fail, or
    the loop ran before and was left running. *)
Ltac loop_case Hinv Hm :=
  let H1 := fresh "H" in
  let H2 := fresh "H" in
  intros H1 H2;
  first [ reflexivity
        | congruence
        | apply String.eqb_eq in Hm; congruence
        | apply Hinv; congruence ].

(** While an effect is selected outside mode [static] the loop runs. *)
Lemma panel_step_effect_loop (app : App) (e : PanelEvent) :
  (currentEffect (globals app) <> None -> animationMode (globals app) <> "static" ->
   animationLoopId app = true) ->
  currentEffect (globals (panel_step app e)) <> None ->
  animationMode (globals (panel_step app e)) <> "static" ->
  animationLoopId (panel_step app e) = true.
Proof.
  intros Hinv. destruct app as [g loop k]. cbn [globals animationLoopId] in Hinv.
  destruct e as [index| |modeId|]; cbn [panel_step].
  - destruct (selectEffect_spec index (mkApp g loop k)) as [-> ->].
    unfold needsAnimation. cbn [currentEffect animationMode gravityEnabled gifEnabled
      set_currentEffect].
    intros He Hm. apply String.eqb_neq in Hm. rewrite Hm.
    destruct index; [reflexivity | congruence].
  - unfold gravityClick, startAnimationLoop, stopAnimationLoop.
    cbn [globals animationLoopId hooks gravityEnabled set_gravityEnabled currentEffect
         gifEnabled animationMode lastRopeCleanup].
    destruct (gravityEnabled g), (currentEffect g) as [e|] eqn:He, loop,
      (gifEnabled g), (String.eqb (animationMode g) "static") eqn:Hm;
      cbn [negb andb globals animationLoopId currentEffect animationMode set_rope
           set_gravityEnabled];
      rewrite ?He; loop_case Hinv Hm.
  - unfold modeClick, startAnimationLoop, stopAnimationLoop.
    cbn [globals animationLoopId hooks animationMode set_animationMode currentEffect
         gifEnabled].
    destruct (String.eqb modeId "static") eqn:Hm, (currentEffect g) as [e|] eqn:He, loop,
      (gifEnabled g);
      cbn [negb andb orb globals animationLoopId currentEffect animationMode
           set_animationMode];
      rewrite ?He; loop_case Hinv Hm.
  - unfold gifToggleClick, startAnimationLoop, stopAnimationLoop.
    cbn [globals animationLoopId hooks gifEnabled set_gifEnabled currentEffect
         gravityEnabled gifUrl].
    destruct (gifEnabled g), (currentEffect g) as [e|] eqn:He, loop,
      (gravityEnabled g), (String.eqb (gifUrl g) "") eqn:Hm;
      cbn [negb andb globals animationLoopId currentEffect animationMode set_gifEnabled];
      rewrite ?He; loop_case Hinv Hm.
Qed.

(** X20. Whatever the user does in the side panel (select effects, click the
    gravity switch, a mode button or the GIF switch), as long as an effect
    is selected and the mode is not [static] the animation loop is
    running. *)
Theorem selected_effect_keeps_loop_running (es : list PanelEvent) :
  currentEffect (globals (panel_run loaded es)) <> None ->
  animationMode (globals (panel_run loaded es)) <> "static" ->
  animationLoopId (panel_run loaded es) = true.
Proof.
  unfold panel_run.
  assert (Hgen : forall app,
             (currentEffect (globals app) <> None -> animationMode (globals app) <> "static" ->
              animationLoopId app = true) ->
             currentEffect (globals (foldl panel_step app es)) <> None ->
             animationMode (globals (foldl panel_step app es)) <> "static" ->
             animationLoopId (foldl panel_step app es) = true).
  { induction es as [|e es IH]; intros app Hinv; [exact Hinv|].
    apply IH. now apply panel_step_effect_loop. }
  apply Hgen. intros H. now contradiction H.
Qed.

Lemma selected_effect_keeps_loop_running_witness :
  animationLoopId
    (panel_run loaded [ClickMode "static"; SelectEffect (Some 2); ClickGravity;
                       ClickMode "selected"; ClickGravity]) = true.
Proof.
  apply (selected_effect_keeps_loop_running
           [ClickMode "static"; SelectEffect (Some 2); ClickGravity;
            ClickMode "selected"; ClickGravity]);
    vm_compute; discriminate.
Defined.

(** X21. Choosing mode [static] with the GIF overlay off stops the animation
    loop, also while gravity is enabled, that is while
    the loop's own test still asks for redraws. *)
Theorem static_mode_stops_loop (app : App) :
  gifEnabled (globals app) = false ->
  animationLoopId (modeClick "static" app) = false /\
  needsAnimation (globals (modeClick "static" app)) = gravityEnabled (globals app).
Proof.
  intros Hgif. destruct app as [g loop k]. cbn [globals] in Hgif.
  unfold modeClick, stopAnimationLoop, needsAnimation.
  cbn [globals animationLoopId hooks animationMode set_animationMode gifEnabled
       currentEffect gravityEnabled].
  rewrite Hgif. change (String.eqb "static" "static") with true. cbn [negb andb].
  destruct loop;
    cbn [globals animationLoopId animationMode set_animationMode currentEffect
         gravityEnabled gifEnabled];
    rewrite ?Hgif; change (String.eqb "static" "static") with true;
    now destruct (currentEffect g), (gravityEnabled g).
Qed.

Lemma static_mode_stops_loop_witness :
  animationLoopId (modeClick "static" (gravityClick loaded)) = false /\
  needsAnimation (globals (modeClick "static" (gravityClick loaded)))
    = gravityEnabled (globals (gravityClick loaded)).
Proof.
  apply (static_mode_stops_loop (gravityClick loaded)). reflexivity.
Defined.

(** X22. The hooks are installed once.  [installHooks] on installed hooks
    changes nothing, so calling it twice is calling it once; and on a
    prototype that still holds the host's methods it saves a method of the
    host as [originalRenderLink], never one of its own replacements. *)
Theorem installHooks_once (k : Hooks) :
  installHooks (installHooks k) = installHooks k /\
  (installed k = true -> installHooks k = k) /\
  (proto_untouched k -> original_is_host k -> original_is_host (installHooks k)) /\
  (forall proto, installed k = false -> canvas_proto k = Some proto ->
     installed (installHooks k) = true).
Proof.
  split; [|split; [|split]].
  - unfold installHooks. destruct (installed k) eqn:Hi; [now rewrite Hi|].
    destruct (canvas_proto k) as [proto|] eqn:Hp; [|now rewrite Hi, Hp].
    destruct (renderLink proto); [reflexivity|]. now destruct (drawLink proto).
  - intros Hi. unfold installHooks. now rewrite Hi.
  - intros Hproto Horig. unfold installHooks, original_is_host.
    destruct (installed k) eqn:Hi; [exact Horig|].
    destruct (canvas_proto k) as [proto|] eqn:Hp; [|exact Horig].
    destruct (Hproto Hi proto Hp) as [Hr Hd].
    destruct (renderLink proto) as [f|].
    + right. cbn. destruct Hr as [Hr|Hr]; congruence.
    + destruct (drawLink proto) as [f|]; [|exact Horig].
      right. cbn. destruct Hd as [Hd|Hd]; congruence.
  - intros proto Hi Hp. unfold installHooks. rewrite Hi, Hp.
    destruct (renderLink proto); [reflexivity|]. now destruct (drawLink proto).
Qed.

Lemma installHooks_once_witness :
  installHooks (installHooks (hooks loaded)) = installHooks (hooks loaded) /\
  original_is_host (installHooks (hooks loaded)) /\
  installed (installHooks (hooks loaded)) = true.
Proof.
  destruct (installHooks_once (hooks loaded)) as (Hidem & _ & Horig & Hinst).
  split; [exact Hidem|]. split.
  - apply Horig.
    + intros _ proto [= <-]. cbn. auto.
    + left. reflexivity.
  - apply (Hinst {| renderLink := Some HostMethod; drawLink := Some HostMethod |});
      reflexivity.
Defined.

(** ** A rope that is still drawn is not swept *)

Lemma request_lastSeen g link a b len clk s :
  gravityEnabled g = true ->
  store_ok g ->
  ropePhysics (globals_of (getRopePoints g link a b len clk)) !! getRopeKey link a b = Some s ->
  lastSeen s = (if resized (state_before g link a b len clk) len
                then t_recreate clk else t_now clk).
Proof.
  intros Hg Hok.
  destruct (getRopePoints_enabled g link a b len clk Hg)
    as (store2 & cleanup & Hkey & _ & _ & ->).
  destruct (resized (state_before g link a b len clk) len).
  - cbn [globals_of ropePhysics set_rope]. rewrite lookup_insert_eq. now intros [= <-].
  - pose proof (state_before_inv g link a b len clk Hok) as Hinv.
    rewrite (updateRopePhysics_step _ a b len (RopeInv_nonempty _ Hinv)).
    cbn [globals_of ropePhysics set_rope]. rewrite lookup_alter_eq, Hkey.
    now intros [= <-].
Qed.

(** X23. A rope that is still drawn is not swept.  After a request for a
    connector at clock readings [clk1], a request for another connector
    whose clock reading is not more than 8000 ms past those readings leaves
    the first connector's rope in the store, unchanged, whether or not it
    sweeps. *)
Theorem recently_drawn_rope_survives (g : Globals) (link1 link2 : option Link)
    (a1 b1 a2 b2 : vec2) (len1 len2 : float) (clk1 clk2 : Readings) :
  gravityEnabled g = true ->
  store_ok g ->
  getRopeKey link1 a1 b1 <> getRopeKey link2 a2 b2 ->
  gtb (t_now clk2 - t_now clk1) 8000 = false ->
  gtb (t_now clk2 - t_recreate clk1) 8000 = false ->
  let g1 := globals_of (getRopePoints g link1 a1 b1 len1 clk1) in
  let g2 := globals_of (getRopePoints g1 link2 a2 b2 len2 clk2) in
  exists s,
    ropePhysics g1 !! getRopeKey link1 a1 b1 = Some s /\
    ropePhysics g2 !! getRopeKey link1 a1 b1 = Some s.
Proof.
  intros Hg Hok Hne Hnow Hrec g1 g2.
  destruct (getRopePoints_returns g link1 a1 b1 len1 clk1 Hg Hok)
    as (pts & s & g' & Hcall & Hlook & _).
  assert (Hg1 : g1 = g') by (unfold g1; now rewrite Hcall).
  exists s. split; [now rewrite Hg1|].
  assert (Hseen : stale (t_now clk2) s = false).
  { unfold stale.
    rewrite (request_lastSeen g link1 a1 b1 len1 clk1 s Hg Hok).
    - now destruct (resized _ _).
    - fold g1. now rewrite Hg1. }
  assert (Hg' : gravityEnabled g1 = true).
  { unfold g1. now rewrite getRopePoints_gravityEnabled. }
  pose proof (getRopePoints_other_key g1 link2 a2 b2 len2 clk2
                (getRopeKey link1 a1 b1) Hg' Hne) as Hframe.
  fold g2 in Hframe. rewrite Hframe, Hg1, Hlook, Hseen, andb_false_r. reflexivity.
Qed.

Lemma recently_drawn_rope_survives_witness :
  exists s,
    ropePhysics
      (globals_of (getRopePoints Scenario.sixty_one (Scenario.link 60) Scenario.a
                     Scenario.b 100 (Scenario.clock 9001)))
      !! getRopeKey (Scenario.link 60) Scenario.a Scenario.b = Some s /\
    ropePhysics
      (globals_of
         (getRopePoints
            (globals_of (getRopePoints Scenario.sixty_one (Scenario.link 60) Scenario.a
                           Scenario.b 100 (Scenario.clock 9001)))
            (Scenario.link 0) Scenario.a Scenario.b 100 (Scenario.clock 17001)))
      !! getRopeKey (Scenario.link 60) Scenario.a Scenario.b = Some s.
Proof.
  assert (Hg : gravityEnabled Scenario.sixty_one = true) by (vm_compute; reflexivity).
  assert (Hok : store_ok Scenario.sixty_one).
  { apply (bool_decide_unpack _). vm_compute. reflexivity. }
  assert (Hne : getRopeKey (Scenario.link 60) Scenario.a Scenario.b
                <> getRopeKey (Scenario.link 0) Scenario.a Scenario.b)
    by (vm_compute; discriminate).
  assert (H1 : gtb (t_now (Scenario.clock 17001) - t_now (Scenario.clock 9001)) 8000 = false)
    by (vm_compute; reflexivity).
  assert (H2 : gtb (t_now (Scenario.clock 17001) - t_recreate (Scenario.clock 9001)) 8000
               = false) by (vm_compute; reflexivity).
  exact (recently_drawn_rope_survives Scenario.sixty_one (Scenario.link 60)
           (Scenario.link 0) Scenario.a Scenario.b Scenario.a Scenario.b 100 100
           (Scenario.clock 9001) (Scenario.clock 17001) Hg Hok Hne H1 H2).
Defined.

(** ** Sampling outside the curve *)

Section NaNSample.
Local Open Scope float_scope.

Lemma nan_mul (v : float) : nan * v = nan.
Proof.
  apply Prim2SF_inj. rewrite FloatAxioms.mul_spec.
  change (Prim2SF nan) with S754_nan. reflexivity.
Qed.

(** X24. The two modes of the sampler differ on a parameter that is not a
    number: on a rope of two points or more [getSmartPoint] throws (the
    segment index is NaN and names no point), while on the Bezier curve it
    always returns a point. *)
Theorem getSmartPoint_nan (t : float) (a b : vec2) (cp : float) (rp : list RopePoint) :
  (2 <= length rp -> getSmartPoint nan a b cp (Some rp) = None) /\
  getSmartPoint t a b cp None = Some (bezierPoint t a b cp) /\
  (length rp < 2 -> getSmartPoint t a b cp (Some rp) = Some (bezierPoint t a b cp)).
Proof.
  split; [|split].
  - intros Hlen. unfold getSmartPoint.
    assert (Hle : (2 <=? length rp)%nat = true) by (apply Nat.leb_le; lia).
    rewrite Hle, nan_mul.
    change (Math_floor nan) with nan.
    assert (Hmin : forall v, Math_min nan v = nan) by reflexivity.
    rewrite Hmin. reflexivity.
  - reflexivity.
  - intros Hlen. unfold getSmartPoint.
    assert (Hgt : (2 <=? length rp)%nat = false) by (apply Nat.leb_gt; lia).
    now rewrite Hgt.
Qed.

End NaNSample.

Lemma getSmartPoint_nan_witness :
  getSmartPoint nan Scenario.a Scenario.b 40 (Some (points Scenario.rope)) = None.
Proof.
  apply (getSmartPoint_nan 0 Scenario.a Scenario.b 40 (points Scenario.rope)).
  vm_compute. lia.
Defined.
